(** * gradle-patch-properties: a model of the script and its properties

    The script [scripts/gradle-patch-properties.py] walks over the paths given
    on the command line and, for each of them, asks the external tool
    [mx urlrewrite] for a replacement of the [distributionUrl] value and
    writes the file back when the value changed.

    The model is a shallow embedding.  Text is a [string] whose characters are
    the 256 code points that [ascii] offers; the file system maps a path to
    the bytes of the file, and the text layer of Python's [open] (newline
    translation on reading and on writing) sits between those bytes and the
    lines the script sees.  Everything outside the interpreter (the search
    path, the rewrite tool, failures of reads and writes) is an oracle of the
    environment, asked once per loop iteration.  Control flow with
    [sys.exit] is an exit-or-continue monad over the world.

    Exceptions the script does not catch end it with a traceback on standard
    error and status 1: a file that does not decode as text (line 20), and a
    call of the tool that raises anything but [CalledProcessError] (line
    33).  On the files that decode, the encoding is taken to be a bijection
    between the bytes on disk and the characters read.  Left outside the
    model: a tool that never returns, and text that the encoding of the
    machine cannot write. *)

From stdpp Require Import base option list strings gmap.
From Stdlib Require Import Ascii String ZArith Lia.

Local Open Scope Z_scope.
Local Open Scope nat_scope.
Local Open Scope stdpp_scope.

(** ** Python's [str] methods used by the script *)

Module PyStr.

Definition LF : ascii := "010"%char.
Definition CR : ascii := "013"%char.
Definition EQUALS : ascii := "="%char.

(** One-character string holding a line feed, Python's ['\n']. *)
Definition nl : string := String LF EmptyString.

(** [str.isspace] on one character, for the code points below 256:
    TAB, LF, VT, FF, CR, FS, GS, RS, US, SPACE, NEL and NBSP. *)
Definition isspace (c : ascii) : bool :=
  let n := nat_of_ascii c in
  ((9 <=? n) && (n <=? 13)) || ((28 <=? n) && (n <=? 32))
  || (n =? 133) || (n =? 160).

(** [all(c.isspace() for c in s)] *)
Fixpoint all_space (s : string) : bool :=
  match s with
  | EmptyString => true
  | String c t => isspace c && all_space t
  end.

(** [s.lstrip()] *)
Fixpoint lstrip (s : string) : string :=
  match s with
  | EmptyString => EmptyString
  | String c t => if isspace c then lstrip t else s
  end.

(** [s.rstrip()] *)
Fixpoint rstrip (s : string) : string :=
  match s with
  | EmptyString => EmptyString
  | String c t =>
      match rstrip t with
      | EmptyString => if isspace c then EmptyString else String c EmptyString
      | String _ _ as t' => String c t'
      end
  end.

(** [s.strip()] *)
Definition strip (s : string) : string := rstrip (lstrip s).

(** [s.startswith(p)] *)
Definition startswith (s p : string) : bool := String.prefix p s.

(** [s.split(sep, 1)] for a one-character separator: the text before the
    first separator and the text after it, or [s] alone when the separator
    does not occur. *)
Fixpoint split1 (sep : ascii) (s : string) : list string :=
  match s with
  | EmptyString => [EmptyString]
  | String c t =>
      if Ascii.eqb c sep then [EmptyString; t]
      else match split1 sep t with
           | [] => [s]
           | h :: rest => String c h :: rest
           end
  end.

(** The text after the first [sep] of [s], which is [s.split(sep, 1)[1]]
    when [sep] occurs in [s]. *)
Fixpoint after_first (sep : ascii) (s : string) : string :=
  match s with
  | EmptyString => EmptyString
  | String c t => if Ascii.eqb c sep then t else after_first sep t
  end.

(** [''.join(parts)] *)
Fixpoint join (parts : list string) : string :=
  match parts with
  | [] => EmptyString
  | p :: rest => p +:+ join rest
  end.

(** The first [n] characters, [s[:n]]. *)
Fixpoint take_chars (n : nat) (s : string) : string :=
  match n, s with
  | 0, _ => EmptyString
  | S _, EmptyString => EmptyString
  | S m, String c t => String c (take_chars m t)
  end.

(** [c in s] *)
Fixpoint contains (c : ascii) (s : string) : bool :=
  match s with
  | EmptyString => false
  | String d t => Ascii.eqb d c || contains c t
  end.

(** A text that does not begin with whitespace. *)
Definition headed (s : string) : Prop :=
  match s with
  | EmptyString => True
  | String c _ => isspace c = false
  end.

(** [not any(c.isspace() for c in s)] *)
Fixpoint no_space (s : string) : bool :=
  match s with
  | EmptyString => true
  | String c t => negb (isspace c) && no_space t
  end.

(** No line break inside [s]: neither LF nor CR. *)
Definition single_line (s : string) : bool :=
  negb (contains LF s) && negb (contains CR s).

End PyStr.

(** ** The text layer of [open]

    The script opens its file with [open(properties_path, 'r')] (line 19)
    and [open(properties_path, 'w')] (line 46), in text mode and without a
    [newline] argument.  With that default, universal newlines are on:
    on input the line endings CR LF, CR and LF are all handed to the
    caller as LF, and on output every LF is written as [os.linesep]. *)

Module TextIO.
Import PyStr.

(** newline translation on input (universal newlines) *)
Fixpoint universal_newlines (bytes : string) : string :=
  match bytes with
  | EmptyString => EmptyString
  | String c t =>
      if Ascii.eqb c CR then
        match t with
        | String d t' =>
            if Ascii.eqb d LF then String LF (universal_newlines t')
            else String LF (universal_newlines t)
        | EmptyString => nl
        end
      else String c (universal_newlines t)
  end.

(** newline translation on output *)
Fixpoint translate_newlines (linesep : string) (text : string) : string :=
  match text with
  | EmptyString => EmptyString
  | String c t =>
      if Ascii.eqb c LF then linesep +:+ translate_newlines linesep t
      else String c (translate_newlines linesep t)
  end.

(** [f.readlines()] on text whose line endings are already LF: the lines
    in order, each with its line feed, the last one possibly without. *)
Fixpoint readlines (text : string) : list string :=
  match text with
  | EmptyString => []
  | String c t =>
      if Ascii.eqb c LF then nl :: readlines t
      else match readlines t with
           | [] => [String c EmptyString]
           | l :: ls => String c l :: ls
           end
  end.

(** A line that ends in a line feed and holds no other. *)
Definition terminated (l : string) : Prop :=
  exists body, l = body +:+ nl /\ contains LF body = false.

End TextIO.

(** ** The world outside the interpreter *)

(** What [subprocess.check_output(...).decode('utf-8')] gives: the decoded
    standard output, or [CalledProcessError] (carrying [str(e)]) when the
    command exits with a non-zero status, or any other exception:
    [OSError] when the tool cannot be started, [ValueError] when an
    argument holds a NUL, [UnicodeDecodeError] when the output is not
    UTF-8.  Line 39 catches the second and nothing else. *)
Inductive tool_result :=
  | ToolOutput (out : string)
  | CalledProcessError (msg : string)
  | ToolRaises.

(** How [open(path, 'w')] followed by [writelines] and the implicit close
    (lines 46 and 47, all three inside the [try]) can end.  Mode ['w']
    opens for writing and truncates the file first, and the script writes
    to the file itself, not to a copy: when the open fails nothing has
    changed, and a failure after the open leaves only the bytes that
    reached the disk before it. *)
Inductive write_fault :=
  | WriteOk
  | OpenFails
  | WriteFailsAfter (n : nat).

(** The environment of one run.  Every oracle takes the number of the loop
    iteration that asks, since each is consulted at most once per file. *)
Record Env := {
  os_name : string;                                (* [os.name] *)
  which : nat -> string -> bool;                   (* [shutil.which(name) is not None] *)
  read_denied : nat -> string -> bool;             (* an existing file that cannot be read *)
  run_tool : nat -> list string -> tool_result;    (* the command line run by [check_output] *)
  write_fault_at : nat -> string -> write_fault;   (* fate of writing the file back *)
}.

(** The input and output operations the interpreter performs, in order. *)
Inductive event :=
  | EvWhich (name : string)
  | EvRead (path : string)
  | EvExec (argv : list string)
  | EvWrite (path : string).

(** The observable state: the files' bytes, the paths whose bytes do not
    decode as text in the encoding of the machine, the lines printed on
    standard output, and the operations performed so far. *)
Record World := {
  fs : gmap string string;
  garbled : gset string;
  stdout : list string;
  trace : list event;
}.

Definition emit (e : event) (w : World) : World :=
  {| fs := fs w; garbled := garbled w; stdout := stdout w;
     trace := trace w ++ [e] |}.

(** Text written to a file: its bytes are the encoded text, which
    decodes. *)
Definition store (path data : string) (w : World) : World :=
  {| fs := <[path := data]> (fs w); garbled := garbled w ∖ {[path]};
     stdout := stdout w; trace := trace w |}.

(** ** Statements that may leave through [sys.exit] *)

Inductive result (A : Type) :=
  | Next (a : A)
  | Exit (code : Z).
Arguments Next {A} a.
Arguments Exit {A} code.

Definition Script (A : Type) : Type := World -> result A * World.

Global Instance script_ret : MRet Script := fun A a w => (Next a, w).

Global Instance script_bind : MBind Script := fun A B k c w =>
  match c w with
  | (Next a, w') => k a w'
  | (Exit code, w') => (Exit code, w')
  end.

(** [sys.exit(code)] *)
Definition sys_exit {A} (code : Z) : Script A := fun w => (Exit code, w).

(** An exception no handler catches: the interpreter prints a traceback on
    standard error and ends with status 1. *)
Definition uncaught {A} : Script A := sys_exit 1.

(** [print(s)] *)
Definition print (s : string) : Script unit := fun w =>
  (Next (), {| fs := fs w; garbled := garbled w; stdout := stdout w ++ [s];
               trace := trace w |}).

(** The exit status of the process: the argument of [sys.exit], or 0 when
    the script runs off its end. *)
Definition exit_status (r : result unit) : Z :=
  match r with
  | Next _ => 0%Z
  | Exit code => code
  end.

(** ** scripts/gradle-patch-properties.py *)

Section Patcher.
Import PyStr TextIO.
Variable E : Env.

(** [os.linesep] *)
Definition os_linesep : string :=
  if String.eqb (os_name E) "nt" then String CR nl else nl.

(** [shutil.which(name) is None], negated *)
Definition shutil_which (k : nat) (name : string) : Script bool := fun w =>
  (Next (which E k name), emit (EvWhich name) w).

(** [with open(path, 'r') as f: lines = f.readlines()]; [None] stands for
    the [IOError] of a missing or unreadable file.  Bytes that do not decode
    raise [UnicodeDecodeError] in [readlines]; it is not an [IOError], so
    it passes the handler of line 21 and ends the script. *)
Definition open_readlines (k : nat) (path : string) : Script (option (list string)) := fun w =>
  match fs w !! path with
  | Some bytes =>
      if read_denied E k path then (Next None, emit (EvRead path) w)
      else if bool_decide (path ∈ garbled w) then uncaught (emit (EvRead path) w)
      else (Next (Some (readlines (universal_newlines bytes))), emit (EvRead path) w)
  | None => (Next None, emit (EvRead path) w)
  end.

(** [subprocess.check_output(argv).decode('utf-8')] *)
Definition check_output (k : nat) (argv : list string) : Script tool_result := fun w =>
  (Next (run_tool E k argv), emit (EvExec argv) w).

(** [with open(path, 'w') as f: f.writelines(lines)]; the result says
    whether the block ended without [IOError]. *)
Definition open_writelines (k : nat) (path : string) (lines : list string) : Script bool := fun w =>
  let data := translate_newlines os_linesep (join lines) in
  match write_fault_at E k path with
  | WriteOk => (Next true, store path data (emit (EvWrite path) w))
  | OpenFails => (Next false, emit (EvWrite path) w)
  | WriteFailsAfter n => (Next false, store path (take_chars n data) (emit (EvWrite path) w))
  end.

(** line 13 *)
Definition mx_exec : string :=
  if String.eqb (os_name E) "nt" then "mx.cmd" else "mx".

(** The variables of one loop iteration (lines 20 and 25 to 27). *)
Record locals := {
  lines : list string;
  found : bool;
  updated : bool;
  new_url : option string;
}.

(** [line.strip().startswith('distributionUrl=')] (line 29) *)
Definition is_target (line : string) : bool :=
  startswith (strip line) "distributionUrl=".

(** [str(x)] for a variable that is [None] or a string *)
Definition fmt (o : option string) : string := default "None" o.

(** Lines 28 to 42: the [for i, line in enumerate(lines)] loop, entered
    at index [i] with [todo] the lines not yet visited. *)
Fixpoint scan_lines (k : nat) (properties_path : string) (i : nat)
    (todo : list string) (st : locals) : Script locals :=
  match todo with
  | [] => mret st
  | line :: todo' =>
      if is_target line then
        match split1 EQUALS line !! 1 with
        | None => uncaught
        | Some value =>
            let old_url := strip value in
            r ← check_output k [mx_exec; "urlrewrite"; old_url];
            match r with
            | ToolOutput out =>
                let new := strip out in
                if negb (String.eqb new old_url) then
                  mret {| lines := <[i := "distributionUrl=" +:+ new +:+ nl]> (lines st);
                          found := true; updated := true; new_url := Some new |}
                else
                  print ("distributionUrl in " +:+ properties_path
                         +:+ " is already set to " +:+ new);;
                  mret {| lines := lines st; found := true;
                          updated := false; new_url := Some new |}
            | CalledProcessError e =>
                print ("Command `" +:+ mx_exec +:+ " urlrewrite " +:+ old_url
                       +:+ "` failed: " +:+ e);;
                sys_exit 1
            | ToolRaises => uncaught
            end
        end
      else scan_lines k properties_path (S i) todo' st
  end.

(** Lines 13 to 55: the body of the outer loop for one path. *)
Definition process_file (k : nat) (properties_path : string) : Script unit :=
  have_mx ← shutil_which k mx_exec;
  if negb have_mx then
    print ("mx executable not found, not rewriting distributionUrl in "
           +:+ properties_path);;
    sys_exit 0
  else
    r ← open_readlines k properties_path;
    match r with
    | None =>
        print ("Error reading file: " +:+ properties_path
               +:+ ", not rewriting distributionUrl");;
        sys_exit 1
    | Some ls =>
        st ← scan_lines k properties_path 0 ls
               {| lines := ls; found := false; updated := false; new_url := None |};
        if updated st then
          ok ← open_writelines k properties_path (lines st);
          if (ok : bool) then
            print ("Patched distributionUrl in '" +:+ properties_path
                   +:+ "' to '" +:+ fmt (new_url st) +:+ "'");;
            print "Do not commit this change"
          else
            print ("Error writing file: " +:+ properties_path
                   +:+ ", distributionUrl not updated according to mx urlrewrites");;
            sys_exit 1
        else if negb (found st) then
          print ("Did not find 'distributionUrl' in " +:+ properties_path);;
          sys_exit 1
        else mret ()
    end.

(** Line 12: [for properties_path in sys.argv[1:]], entered at iteration
    [k]. *)
Fixpoint for_each (k : nat) (paths : list string) : Script unit :=
  match paths with
  | [] => mret ()
  | properties_path :: rest =>
      process_file k properties_path;;
      for_each (S k) rest
  end.

(** The whole script; [argv] is [sys.argv]. *)
Definition main (argv : list string) : Script unit :=
  if List.length argv <? 2 then
    print "Usage: python gradle-patch-properties.py <path_to_gradle.properties> [<path2>, ...]";;
    print "Uses mx urlrewrites to patches distributionUrl in given Gradle properties file.";;
    print "If mx is not available or no urlrewrite rule applies, does nothing.";;
    sys_exit 1
  else for_each 0 (drop 1 argv).

(** The status the process ends with, and the world it leaves. *)
Definition run (argv : list string) (w : World) : Z * World :=
  let '(r, w') := main argv w in (exit_status r, w').

End Patcher.

(** ** Vocabulary of the specification

    The specification speaks of the first line whose trimmed text starts
    with [distributionUrl=], of the URL taken from it, and of a taxonomy of
    ways in which the work on one file can end.  These definitions follow
    its words; the theorems below relate them to the script. *)

Section Vocabulary.
Import PyStr TextIO.
Variable E : Env.

(** The lines of a file as the script sees them. *)
Definition text_lines (bytes : string) : list string :=
  readlines (universal_newlines bytes).

(** The first line whose trimmed text begins with the prefix, with its
    index. *)
Definition target_line (ls : list string) : option (nat * string) :=
  list_find (fun l => is_target l = true) ls.

(** Everything after the first [=], trimmed. *)
Definition url_of (line : string) : string :=
  strip (after_first EQUALS line).

(** The command line [<tool-name> urlrewrite <url>]. *)
Definition rewrite_argv (url : string) : list string :=
  [mx_exec E; "urlrewrite"; url].

(** [distributionUrl=<newURL>] plus newline. *)
Definition patched_line (new : string) : string :=
  "distributionUrl=" +:+ new +:+ nl.

(** The bytes that a successful write-back of [ls] puts on disk. *)
Definition written (ls : list string) : string :=
  translate_newlines (os_linesep E) (join ls).

(** The world after some more operations and printed lines. *)
Definition advance (evs : list event) (msgs : list string) (w : World) : World :=
  {| fs := fs w; garbled := garbled w; stdout := stdout w ++ msgs;
     trace := trace w ++ evs |}.

(** The ways the work on one file ends (section 7 of the specification,
    with the two ways of succeeding, and the end by an exception that the
    script does not catch). *)
Inductive fate :=
  | Patched
  | AlreadySet
  | ToolUnavailable
  | ReadFailure
  | RewriteToolFailure
  | KeyNotFound
  | WriteFailure
  | UncaughtException.

Global Instance fate_eq_dec : EqDecision fate.
Proof. solve_decision. Defined.

(** The fate of path [p] at iteration [k], read off the environment and
    the files alone, in the order of section 4.1. *)
Definition file_fate (k : nat) (p : string) (w : World) : fate :=
  if which E k (mx_exec E) then
    match fs w !! p with
    | None => ReadFailure
    | Some bytes =>
        if read_denied E k p then ReadFailure
        else if bool_decide (p ∈ garbled w) then UncaughtException
        else match target_line (text_lines bytes) with
             | None => KeyNotFound
             | Some (_, line) =>
                 match run_tool E k (rewrite_argv (url_of line)) with
                 | CalledProcessError _ => RewriteToolFailure
                 | ToolRaises => UncaughtException
                 | ToolOutput out =>
                     if String.eqb (strip out) (url_of line) then AlreadySet
                     else match write_fault_at E k p with
                          | WriteOk => Patched
                          | _ => WriteFailure
                          end
                 end
             end
    end
  else ToolUnavailable.

(** The lines the script prints. *)
Definition msg_tool_unavailable (p : string) : string :=
  "mx executable not found, not rewriting distributionUrl in " +:+ p.
Definition msg_read_failure (p : string) : string :=
  "Error reading file: " +:+ p +:+ ", not rewriting distributionUrl".
Definition msg_key_not_found (p : string) : string :=
  "Did not find 'distributionUrl' in " +:+ p.
Definition msg_tool_failure (url e : string) : string :=
  "Command `" +:+ mx_exec E +:+ " urlrewrite " +:+ url +:+ "` failed: " +:+ e.
Definition msg_already_set (p url : string) : string :=
  "distributionUrl in " +:+ p +:+ " is already set to " +:+ url.
Definition msg_patched (p url : string) : string :=
  "Patched distributionUrl in '" +:+ p +:+ "' to '" +:+ url +:+ "'".
Definition msg_no_commit : string := "Do not commit this change".
Definition msg_write_failure (p : string) : string :=
  "Error writing file: " +:+ p
  +:+ ", distributionUrl not updated according to mx urlrewrites".

(** What the scan of lines 28 to 42 does, told from the target line
    [t] of the lines still to visit: nothing when there is none, else one
    call of the tool and the comparison of its answer. *)
Definition scan_summary (k : nat) (p : string) (i : nat) (st : locals)
    (w : World) (t : option (nat * string)) : result locals * World :=
  match t with
  | None => (Next st, w)
  | Some (j, line) =>
      let url := url_of line in
      match run_tool E k (rewrite_argv url) with
      | ToolOutput out =>
          if String.eqb (strip out) url then
            (Next {| lines := lines st; found := true; updated := false;
                     new_url := Some (strip out) |},
             advance [EvExec (rewrite_argv url)] [msg_already_set p (strip out)] w)
          else
            (Next {| lines := <[i + j := patched_line (strip out)]> (lines st);
                     found := true; updated := true; new_url := Some (strip out) |},
             advance [EvExec (rewrite_argv url)] [] w)
      | CalledProcessError e =>
          (Exit 1, advance [EvExec (rewrite_argv url)] [msg_tool_failure url e] w)
      | ToolRaises =>
          (Exit 1, advance [EvExec (rewrite_argv url)] [] w)
      end
  end.

(** Iteration [k] finds the tool and reads [bytes] from path [p]: the file
    is there, can be opened, and decodes. *)
Definition reads (k : nat) (p : string) (w : World) (bytes : string) : Prop :=
  which E k (mx_exec E) = true
  /\ fs w !! p = Some bytes
  /\ read_denied E k p = false
  /\ p ∉ garbled w.

(** The target line of [bytes] is [line], at index [i], and the tool
    answers [r] for its URL at iteration [k]. *)
Definition rewrites (k : nat) (bytes : string) (i : nat) (line : string)
    (r : tool_result) : Prop :=
  target_line (text_lines bytes) = Some (i, line)
  /\ run_tool E k (rewrite_argv (url_of line)) = r.

(** What one iteration does, case by case: its fate, how it ends, and
    the world it leaves. *)
Inductive file_outcome (k : nat) (p : string) (w : World) :
    fate -> result unit -> World -> Prop :=
  | fo_tool_unavailable :
      which E k (mx_exec E) = false ->
      file_outcome k p w ToolUnavailable (Exit 0)
        (advance [EvWhich (mx_exec E)] [msg_tool_unavailable p] w)
  | fo_read_failure :
      which E k (mx_exec E) = true ->
      fs w !! p = None \/ read_denied E k p = true ->
      file_outcome k p w ReadFailure (Exit 1)
        (advance [EvWhich (mx_exec E); EvRead p] [msg_read_failure p] w)
  | fo_undecodable bytes :
      which E k (mx_exec E) = true ->
      fs w !! p = Some bytes ->
      read_denied E k p = false ->
      p ∈ garbled w ->
      file_outcome k p w UncaughtException (Exit 1)
        (advance [EvWhich (mx_exec E); EvRead p] [] w)
  | fo_tool_raises bytes i line :
      reads k p w bytes ->
      rewrites k bytes i line ToolRaises ->
      file_outcome k p w UncaughtException (Exit 1)
        (advance [EvWhich (mx_exec E); EvRead p; EvExec (rewrite_argv (url_of line))]
                 [] w)
  | fo_key_not_found bytes :
      reads k p w bytes ->
      target_line (text_lines bytes) = None ->
      file_outcome k p w KeyNotFound (Exit 1)
        (advance [EvWhich (mx_exec E); EvRead p] [msg_key_not_found p] w)
  | fo_tool_failure bytes i line e :
      reads k p w bytes ->
      rewrites k bytes i line (CalledProcessError e) ->
      file_outcome k p w RewriteToolFailure (Exit 1)
        (advance [EvWhich (mx_exec E); EvRead p; EvExec (rewrite_argv (url_of line))]
                 [msg_tool_failure (url_of line) e] w)
  | fo_already_set bytes i line out :
      reads k p w bytes ->
      rewrites k bytes i line (ToolOutput out) ->
      strip out = url_of line ->
      file_outcome k p w AlreadySet (Next ())
        (advance [EvWhich (mx_exec E); EvRead p; EvExec (rewrite_argv (url_of line))]
                 [msg_already_set p (strip out)] w)
  | fo_patched bytes i line out :
      reads k p w bytes ->
      rewrites k bytes i line (ToolOutput out) ->
      strip out <> url_of line ->
      write_fault_at E k p = WriteOk ->
      file_outcome k p w Patched (Next ())
        (store p (written (<[i := patched_line (strip out)]> (text_lines bytes)))
           (advance [EvWhich (mx_exec E); EvRead p;
                     EvExec (rewrite_argv (url_of line)); EvWrite p]
                    [msg_patched p (strip out); msg_no_commit] w))
  | fo_open_fails bytes i line out :
      reads k p w bytes ->
      rewrites k bytes i line (ToolOutput out) ->
      strip out <> url_of line ->
      write_fault_at E k p = OpenFails ->
      file_outcome k p w WriteFailure (Exit 1)
        (advance [EvWhich (mx_exec E); EvRead p;
                  EvExec (rewrite_argv (url_of line)); EvWrite p]
                 [msg_write_failure p] w)
  | fo_write_fails bytes i line out n :
      reads k p w bytes ->
      rewrites k bytes i line (ToolOutput out) ->
      strip out <> url_of line ->
      write_fault_at E k p = WriteFailsAfter n ->
      file_outcome k p w WriteFailure (Exit 1)
        (store p (take_chars n (written (<[i := patched_line (strip out)]> (text_lines bytes))))
           (advance [EvWhich (mx_exec E); EvRead p;
                     EvExec (rewrite_argv (url_of line)); EvWrite p]
                    [msg_write_failure p] w)).



(** [reaches k0 paths w k p wk]: the loop over [paths], entered at
    iteration [k0] in world [w], gets to iteration [k], which is for path
    [p] and starts in world [wk]. *)
Inductive reaches : nat -> list string -> World -> nat -> string -> World -> Prop :=
  | reaches_head k0 p rest w :
      reaches k0 (p :: rest) w k0 p w
  | reaches_tail k0 p rest w w1 k q wk :
      process_file E k0 p w = (Next (), w1) ->
      reaches (S k0) rest w1 k q wk ->
      reaches k0 (p :: rest) w k q wk.

(** The path an operation opens, if any. *)
Definition event_path (e : event) : option string :=
  match e with
  | EvRead p | EvWrite p => Some p
  | EvWhich _ | EvExec _ => None
  end.

(** [in_order paths tr]: the operations [tr] fall into consecutive
    segments, one per path of a prefix of [paths] and in the order of
    [paths], the segment of a path opening no other file. *)
Inductive in_order : list string -> list event -> Prop :=
  | in_order_done paths : in_order paths []
  | in_order_file p rest seg tr :
      Forall (fun e => forall q, event_path e = Some q -> q = p) seg ->
      in_order rest tr ->
      in_order (p :: rest) (seg ++ tr).

(** A rewrite tool that is present and is a function [f] of the URL,
    idempotent on the trimmed values the script compares. *)
Definition stable_tool (f : string -> string) : Prop :=
  (forall k, which E k (mx_exec E) = true)
  /\ (forall k url, run_tool E k (rewrite_argv url) = ToolOutput (f url))
  /\ (forall url, strip (f (strip (f url))) = strip (f url)).

End Vocabulary.

(** ** Concrete environments and files

    Used to run the model on the scenarios of the specification and on the
    inputs that separate the script from what is said about it. *)

Module Examples.
Import PyStr TextIO.

(** A POSIX machine where the tool is installed, every file can be read,
    the tool computes [tool] from its URL argument, and writing ends as
    [wf] says. *)
Definition posix_env (tool : string -> tool_result) (wf : write_fault) : Env :=
  {| os_name := "posix";
     which := fun _ _ => true;
     read_denied := fun _ _ => false;
     run_tool := fun _ argv =>
       match argv !! 2 with
       | Some url => tool url
       | None => CalledProcessError "usage"
       end;
     write_fault_at := fun _ _ => wf |}.

(** The same machine without the tool on the search path. *)
Definition no_mx_env : Env :=
  {| os_name := "posix";
     which := fun _ _ => false;
     read_denied := fun _ _ => false;
     run_tool := fun _ _ => CalledProcessError "not installed";
     write_fault_at := fun _ _ => WriteOk |}.

(** A file system with one file, nothing printed, nothing done yet. *)
Definition one_file (path bytes : string) : World :=
  {| fs := {[ path := bytes ]}; garbled := ∅; stdout := []; trace := [] |}.

Definition props : string := "gradle/wrapper/gradle-wrapper.properties".

(** Scenario A: the tool sends the old archive to a mirror and leaves
    every other URL alone. *)
Definition mirror (url : string) : tool_result :=
  if String.eqb url "https://example.com/old.zip"
  then ToolOutput ("https://mirror.example.com/old.zip" +:+ nl)
  else ToolOutput (url +:+ nl).

Definition scenario_a : World :=
  one_file props
    ("distributionBase=GRADLE_USER_HOME" +:+ nl
     +:+ "distributionUrl=https://example.com/old.zip" +:+ nl
     +:+ "zipStoreBase=GRADLE_USER_HOME" +:+ nl).

(** The file of scenario A with the line endings of a Windows checkout. *)
Definition crlf_file : World :=
  one_file props
    ("distributionBase=GRADLE_USER_HOME" +:+ String CR nl
     +:+ "distributionUrl=https://example.com/old.zip" +:+ String CR nl).

(** Scenario C: no [distributionUrl] key. *)
Definition scenario_c : World :=
  one_file props ("distributionBase=GRADLE_USER_HOME" +:+ nl).

(** A file already at the mirror. *)
Definition at_mirror : World :=
  one_file props ("distributionUrl=https://mirror.example.com/old.zip" +:+ nl).

(** A file whose key has no value. *)
Definition empty_value : World :=
  one_file props ("distributionUrl=" +:+ nl).

(** A tool that is a function of the trimmed URL and maps each of its
    answers to itself, one of the answers being two lines long. *)
Definition two_lines (url : string) : string :=
  if String.eqb (strip url) "old" then "a" +:+ nl +:+ "b"
  else if String.eqb (strip url) "a" then "c"
  else strip url.

Definition two_lines_env : Env :=
  posix_env (fun url => ToolOutput (two_lines url)) WriteOk.

(** A tool that sends every URL to one mirror. *)
Definition fixed_mirror (url : string) : string :=
  "https://mirror.example.com/gradle.zip" +:+ nl.

Definition fixed_env : Env :=
  posix_env (fun url => ToolOutput (fixed_mirror url)) WriteOk.

Definition old_file : World := one_file props ("distributionUrl=old" +:+ nl).

(** Two files, for scenario D: the first exists, the second does not. *)
Definition other : string := "missing/gradle-wrapper.properties".

End Examples.

(** ** What a trace shows

    The paths read, the command lines run and the paths written, each in the
    order of the operations. *)

Module Observations.
Import PyStr TextIO Examples.

Definition reads_of (tr : list event) : list string :=
  omap (fun e => match e with EvRead p => Some p | _ => None end) tr.

Definition execs_of (tr : list event) : list (list string) :=
  omap (fun e => match e with EvExec argv => Some argv | _ => None end) tr.

Definition writes_of (tr : list event) : list string :=
  omap (fun e => match e with EvWrite p => Some p | _ => None end) tr.

(** The bytes of the file of scenario A, and its target line. *)
Definition scenario_a_bytes : string :=
  "distributionBase=GRADLE_USER_HOME" +:+ nl
  +:+ "distributionUrl=https://example.com/old.zip" +:+ nl
  +:+ "zipStoreBase=GRADLE_USER_HOME" +:+ nl.

Definition scenario_a_line : string :=
  "distributionUrl=https://example.com/old.zip" +:+ nl.

(** A machine whose tool always exits with a non-zero status. *)
Definition broken_tool_env : Env :=
  posix_env (fun _ => CalledProcessError "Command returned non-zero exit status 1.")
            WriteOk.


(** The file of scenario A with bytes that do not decode. *)
Definition garbled_file : World :=
  {| fs := fs scenario_a; garbled := {[ props ]}; stdout := []; trace := [] |}.

(** A machine where the file cannot be opened for writing. *)
Definition read_only_env : Env := posix_env mirror OpenFails.

(** An indented line whose value has blanks around it and [=] inside. *)
Definition query_line : string :=
  "  distributionUrl= https://example.com/get?file=gradle.zip&v=8 " +:+ nl.

End Observations.

(** ** Facts about strings *)

Module StrFacts.
Import PyStr.

Lemma app_cons c s t : String c s +:+ t = String c (s +:+ t).
Proof. reflexivity. Qed.

Lemma app_empty_l t : EmptyString +:+ t = t.
Proof. reflexivity. Qed.

Lemma app_empty_r s : s +:+ EmptyString = s.
Proof. induction s as [|c s IH]; [done|]. by rewrite app_cons, IH. Qed.

Lemma app_assoc s t u : (s +:+ t) +:+ u = s +:+ (t +:+ u).
Proof. induction s as [|c s IH]; [done|]. by rewrite !app_cons, IH. Qed.

Lemma startswith_app s p : startswith s p = true <-> exists rest, s = p +:+ rest.
Proof.
  unfold startswith. revert s. induction p as [|c p IH]; intros s.
  - split; [intros _; exists s; done|intros _; by destruct s].
  - destruct s as [|d s]; simpl.
    + split; [done|intros [rest Hr]; discriminate Hr].
    + destruct (ascii_dec c d) as [->|Hne].
      * rewrite IH. split; intros [rest Hr]; exists rest.
        -- by rewrite app_cons, Hr.
        -- rewrite app_cons in Hr. by injection Hr.
      * split; [done|]. intros [rest Hr]. rewrite app_cons in Hr.
        injection Hr as Hc _. congruence.
Qed.

(** *** whitespace *)

Lemma lstrip_all_space ws : all_space ws = true -> lstrip ws = EmptyString.
Proof.
  induction ws as [|c ws IH]; simpl; [done|].
  intros [Hc Hws]%andb_prop. rewrite Hc. auto.
Qed.

Lemma rstrip_all_space ws : all_space ws = true -> rstrip ws = EmptyString.
Proof.
  induction ws as [|c ws IH]; simpl; [done|].
  intros [Hc Hws]%andb_prop. rewrite IH, Hc by done. done.
Qed.

Lemma all_space_app a b :
  all_space (a +:+ b) = all_space a && all_space b.
Proof.
  induction a as [|c a IH]; [done|].
  rewrite app_cons. simpl. rewrite IH. by rewrite andb_assoc.
Qed.

(** [lstrip] removes a prefix of whitespace. *)
Lemma lstrip_split s :
  exists ws, s = ws +:+ lstrip s /\ all_space ws = true.
Proof.
  induction s as [|c s [ws [Hs Hws]]]; simpl.
  - by exists EmptyString.
  - destruct (isspace c) eqn:Hc.
    + exists (String c ws). rewrite app_cons, <- Hs. simpl. by rewrite Hc, Hws.
    + by exists EmptyString.
Qed.

(** [rstrip] removes a suffix of whitespace. *)
Lemma rstrip_split s :
  exists ws, s = rstrip s +:+ ws /\ all_space ws = true.
Proof.
  induction s as [|c s [ws [Hs Hws]]]; simpl.
  - by exists EmptyString.
  - destruct (rstrip s) as [|d r] eqn:Hr.
    + destruct (isspace c) eqn:Hc.
      * exists (String c ws). rewrite app_empty_l in *. subst s.
        simpl. by rewrite Hc, Hws.
      * exists ws. rewrite app_cons. by rewrite <- Hs.
    + exists ws. rewrite app_cons. by rewrite <- Hs.
Qed.

Lemma rstrip_app_space s ws :
  all_space ws = true -> rstrip (s +:+ ws) = rstrip s.
Proof.
  intros Hws. induction s as [|c s IH].
  - rewrite app_empty_l. by apply rstrip_all_space.
  - rewrite app_cons. simpl. by rewrite IH.
Qed.

Lemma rstrip_idemp s : rstrip (rstrip s) = rstrip s.
Proof.
  destruct (rstrip_split s) as [ws [Hs Hws]].
  rewrite Hs at 2. by rewrite rstrip_app_space.
Qed.

Lemma lstrip_headed s : headed (lstrip s).
Proof.
  induction s as [|c s IH]; simpl; [done|].
  destruct (isspace c) eqn:Hc; [done|]. simpl. done.
Qed.

Lemma headed_lstrip s : headed s -> lstrip s = s.
Proof. destruct s as [|c s]; simpl; [done|]. by intros ->. Qed.

Lemma headed_rstrip s : headed s -> headed (rstrip s).
Proof.
  destruct s as [|c s]; simpl; [done|]. intros Hc.
  destruct (rstrip s); [rewrite Hc|]; done.
Qed.

Lemma strip_headed s : headed (strip s).
Proof. apply headed_rstrip, lstrip_headed. Qed.

Lemma strip_all_space ws : all_space ws = true -> strip ws = EmptyString.
Proof. intros Hws. unfold strip. by rewrite lstrip_all_space. Qed.

(** Trimming a trimmed text followed by whitespace gives it back. *)
Lemma strip_strip_app s ws :
  all_space ws = true -> strip (strip s +:+ ws) = strip s.
Proof.
  intros Hws. pose proof (strip_headed s) as Hh.
  destruct (strip s) as [|c t] eqn:Hst.
  - rewrite app_empty_l. by apply strip_all_space.
  - unfold strip at 1. rewrite headed_lstrip by (rewrite app_cons; exact Hh).
    rewrite rstrip_app_space by done. rewrite <- Hst.
    unfold strip. apply rstrip_idemp.
Qed.

Lemma strip_idemp s : strip (strip s) = strip s.
Proof.
  rewrite <- (app_empty_r (strip s)) at 1. by apply strip_strip_app.
Qed.

Lemma strip_app_space_l ws s :
  all_space ws = true -> strip (ws +:+ s) = strip s.
Proof.
  intros Hws. unfold strip. f_equal.
  induction ws as [|c ws IH]; [done|].
  apply andb_prop in Hws as [Hc Hws]. rewrite app_cons. simpl.
  rewrite Hc. auto.
Qed.

(** The whole text is the trimmed text between two runs of whitespace. *)
Lemma strip_split s :
  exists ws1 ws2, s = ws1 +:+ strip s +:+ ws2
                  /\ all_space ws1 = true /\ all_space ws2 = true.
Proof.
  destruct (lstrip_split s) as [ws1 [H1 Hws1]].
  destruct (rstrip_split (lstrip s)) as [ws2 [H2 Hws2]].
  exists ws1, ws2. split; [|done]. unfold strip. by rewrite <- H2.
Qed.

(** *** [split] and the text after the separator *)

Lemma isspace_not_equals c : isspace c = true -> Ascii.eqb c EQUALS = false.
Proof.
  intros Hc. destruct (Ascii.eqb_spec c EQUALS) as [->|]; [|done].
  vm_compute in Hc. discriminate.
Qed.

Lemma contains_app c a b : contains c (a +:+ b) = contains c a || contains c b.
Proof.
  induction a as [|d a IH]; [done|].
  rewrite app_cons. simpl. rewrite IH. by rewrite orb_assoc.
Qed.

Lemma all_space_no_equals ws : all_space ws = true -> contains EQUALS ws = false.
Proof.
  induction ws as [|c ws IH]; simpl; [done|].
  intros [Hc Hws]%andb_prop. by rewrite isspace_not_equals, IH.
Qed.

Lemma split1_at sep a b :
  contains sep a = false -> split1 sep (a +:+ String sep b) = [a; b].
Proof.
  induction a as [|c a IH]; simpl.
  - intros _. rewrite ?app_empty_l. simpl. by rewrite Ascii.eqb_refl.
  - intros [Hc Ha]%orb_false_elim. rewrite ?app_cons. simpl.
    rewrite Hc, IH by done. done.
Qed.

Lemma after_first_at sep a b :
  contains sep a = false -> after_first sep (a +:+ String sep b) = b.
Proof.
  induction a as [|c a IH]; simpl.
  - intros _. rewrite ?app_empty_l. simpl. by rewrite Ascii.eqb_refl.
  - intros [Hc Ha]%orb_false_elim. rewrite ?app_cons. simpl.
    rewrite Hc. auto.
Qed.

(** *** [join] and [take_chars] *)

Lemma join_app a b : join (a ++ b) = join a +:+ join b.
Proof.
  induction a as [|x a IH]; simpl; [done|]. by rewrite IH, app_assoc.
Qed.

Lemma take_chars_prefix n s : exists rest, s = take_chars n s +:+ rest.
Proof.
  revert s. induction n as [|n IH]; intros s; simpl.
  - by exists s.
  - destruct s as [|c s]; [by exists EmptyString|].
    destruct (IH s) as [rest Hr]. exists rest.
    rewrite app_cons. by rewrite <- Hr.
Qed.

Lemma rstrip_cons_nonspace c t :
  isspace c = false -> rstrip (String c t) = String c (rstrip t).
Proof. intros Hc. simpl. destruct (rstrip t); [by rewrite Hc|done]. Qed.

Lemma rstrip_app_no_space p x :
  no_space p = true -> rstrip (p +:+ x) = p +:+ rstrip x.
Proof.
  induction p as [|c p IH]; [done|].
  intros Hp. simpl in Hp. apply andb_prop in Hp as [Hc Hp].
  apply negb_true_iff in Hc.
  rewrite !app_cons, rstrip_cons_nonspace, IH by done. done.
Qed.

Lemma contains_join c ls :
  contains c (join ls) = false <-> Forall (fun l => contains c l = false) ls.
Proof.
  induction ls as [|l ls IH]; simpl.
  - split; [constructor|done].
  - rewrite contains_app, orb_false_iff, IH, Forall_cons. done.
Qed.
End StrFacts.

(** ** Facts about the text layer *)

Module TextFacts.
Import PyStr TextIO StrFacts.

Lemma join_readlines text : join (readlines text) = text.
Proof.
  induction text as [|c t IH]; simpl; [done|].
  destruct (Ascii.eqb_spec c LF) as [->|Hc].
  - simpl. by rewrite IH.
  - destruct (readlines t) as [|l ls]; simpl in *.
    + by rewrite <- IH.
    + rewrite app_cons. by rewrite IH.
Qed.

Lemma translate_app sep a b :
  translate_newlines sep (a +:+ b)
  = translate_newlines sep a +:+ translate_newlines sep b.
Proof.
  induction a as [|c a IH]; [done|].
  rewrite app_cons. simpl. rewrite IH.
  destruct (Ascii.eqb c LF); [by rewrite app_assoc|done].
Qed.

Lemma translate_nl text : translate_newlines nl text = text.
Proof.
  induction text as [|c t IH]; simpl; [done|]. rewrite IH.
  by destruct (Ascii.eqb_spec c LF) as [->|].
Qed.

(** Text that went through the input translation holds no CR. *)
Lemma universal_newlines_no_cr bytes :
  contains CR (universal_newlines bytes) = false.
Proof.
  induction bytes as [|c t IH]; simpl; [done|].
  destruct (Ascii.eqb_spec c CR) as [->|Hc].
  - destruct t as [|d t']; [done|].
    destruct (Ascii.eqb_spec d LF) as [->|Hd]; simpl in *.
    + exact IH.
    + exact IH.
  - simpl. rewrite IH. by apply Ascii.eqb_neq in Hc as ->.
Qed.

(** Reading back what was written gives the text that was written, on
    both kinds of platform, when the text holds no CR. *)
Lemma universal_translate sep text :
  sep = nl \/ sep = String CR nl ->
  contains CR text = false ->
  universal_newlines (translate_newlines sep text) = text.
Proof.
  intros Hsep. induction text as [|c t IH]; [done|].
  intros Hc. simpl in Hc. apply orb_false_elim in Hc as [Hc Ht].
  specialize (IH Ht). simpl.
  destruct (Ascii.eqb_spec c LF) as [->|Hlf].
  - destruct Hsep as [-> | ->].
    + change (nl +:+ ?x) with (String LF x). simpl. by rewrite IH.
    + change (String CR nl +:+ ?x) with (String CR (String LF x)).
      simpl. by rewrite IH.
  - simpl. rewrite Hc, IH. done.
Qed.

Lemma readlines_line body rest :
  contains LF body = false ->
  readlines ((body +:+ nl) +:+ rest) = (body +:+ nl) :: readlines rest.
Proof.
  induction body as [|c b IH]; simpl.
  - done.
  - intros [Hc Hb]%orb_false_elim. rewrite ?app_cons. simpl.
    rewrite Hc, IH by done. done.
Qed.

Lemma readlines_cons text l ls :
  readlines text = l :: ls ->
  exists rest, text = l +:+ rest /\ readlines rest = ls
               /\ (ls <> [] -> terminated l).
Proof.
  revert l ls. induction text as [|c t IH]; intros l ls; simpl; [done|].
  destruct (Ascii.eqb_spec c LF) as [->|Hc].
  - intros [= <- <-]. exists t. repeat split.
    intros _. by exists EmptyString.
  - destruct (readlines t) as [|l0 ls0] eqn:Ht.
    + intros [= <- <-]. exists t. by repeat split.
    + intros [= <- <-]. destruct (IH _ _ eq_refl) as (rest & -> & Hrest & Hterm).
      exists rest. repeat split; [done|].
      intros Hne. destruct (Hterm Hne) as (body & -> & Hbody).
      exists (String c body). split; [done|]. simpl.
      rewrite Hbody. by apply Ascii.eqb_neq in Hc as ->.
Qed.

(** Replacing one line by a terminated line and reading the text again
    gives the same lines. *)
Lemma readlines_join_insert text i line new_line :
  readlines text !! i = Some line ->
  terminated new_line ->
  readlines (join (<[i := new_line]> (readlines text)))
  = <[i := new_line]> (readlines text).
Proof.
  intros Hi (body & -> & Hbody). revert text Hi.
  induction i as [|i IH]; intros text Hi.
  - destruct (readlines text) as [|l ls] eqn:Ht; [done|]. simpl.
    destruct (readlines_cons _ _ _ Ht) as (rest & _ & Hrest & _).
    rewrite readlines_line by done. rewrite <- Hrest.
    by rewrite join_readlines.
  - destruct (readlines text) as [|l ls] eqn:Ht; [done|]. simpl in *.
    destruct (readlines_cons _ _ _ Ht) as (rest & _ & Hrest & Hterm).
    destruct Hterm as (b & -> & Hb).
    { intros ->. done. }
    rewrite readlines_line by done. f_equal.
    rewrite <- Hrest. apply IH. by rewrite Hrest.
Qed.
End TextFacts.

(** ** The target line *)

Module LineFacts.
Import PyStr TextIO StrFacts TextFacts.

(** A target line is the prefix after some whitespace, then the rest. *)
Lemma is_target_split line :
  is_target line = true ->
  exists ws rest, line = ws +:+ "distributionUrl=" +:+ rest
                  /\ all_space ws = true.
Proof.
  unfold is_target. intros [r Hr]%startswith_app.
  destruct (strip_split line) as (ws1 & ws2 & Hline & Hws1 & _).
  exists ws1, (r +:+ ws2). split; [|done].
  rewrite Hline at 1. rewrite Hr. by rewrite !app_assoc.
Qed.

Lemma split_target ws rest :
  all_space ws = true ->
  split1 EQUALS (ws +:+ "distributionUrl=" +:+ rest)
  = [ws +:+ "distributionUrl"; rest]
  /\ after_first EQUALS (ws +:+ "distributionUrl=" +:+ rest) = rest.
Proof.
  intros Hws.
  assert (ws +:+ "distributionUrl=" +:+ rest
          = (ws +:+ "distributionUrl") +:+ String EQUALS rest) as ->.
  { by rewrite app_assoc. }
  assert (contains EQUALS (ws +:+ "distributionUrl") = false) as Hno.
  { rewrite contains_app, all_space_no_equals by done. done. }
  split; [by apply split1_at|by apply after_first_at].
Qed.

(** [line.split('=', 1)[1]] is defined on a target line: it is the text
    after the first [=]. *)
Lemma split1_target line :
  is_target line = true ->
  split1 EQUALS line !! 1 = Some (after_first EQUALS line).
Proof.
  intros (ws & rest & -> & Hws)%is_target_split.
  destruct (split_target ws rest Hws) as [-> ->]. done.
Qed.

Lemma strip_prefix_app x :
  strip ("distributionUrl=" +:+ x) = "distributionUrl=" +:+ rstrip x.
Proof.
  unfold strip. rewrite headed_lstrip by done.
  by rewrite rstrip_app_no_space.
Qed.

Lemma is_target_patched new : is_target (patched_line new) = true.
Proof.
  unfold is_target, patched_line. rewrite strip_prefix_app.
  apply startswith_app. eauto.
Qed.

Lemma url_of_patched out : url_of (patched_line (strip out)) = strip out.
Proof.
  unfold url_of, patched_line.
  destruct (split_target EmptyString (strip out +:+ nl) eq_refl) as [_ Ha].
  rewrite app_empty_l in Ha. rewrite Ha. by apply strip_strip_app.
Qed.

(** The replacement differs from the line it replaces whenever the new
    URL differs from the old one. *)
Lemma patched_line_changes line out :
  strip out <> url_of line -> patched_line (strip out) <> line.
Proof.
  intros Hne <-. by rewrite url_of_patched in Hne.
Qed.

Lemma terminated_patched new :
  contains LF new = false -> terminated (patched_line new).
Proof.
  intros Hnew. exists ("distributionUrl=" +:+ new). split.
  - unfold patched_line. by rewrite app_assoc.
  - by rewrite contains_app, Hnew.
Qed.

(** An empty value: the trimmed line is the prefix alone. *)
Lemma url_of_empty line :
  strip line = "distributionUrl=" -> is_target line = true /\ url_of line = EmptyString.
Proof.
  intros Hs. split.
  - unfold is_target. by rewrite Hs.
  - destruct (strip_split line) as (ws1 & ws2 & Hline & Hws1 & Hws2).
    rewrite Hs in Hline. unfold url_of. rewrite Hline.
    destruct (split_target ws1 ws2 Hws1) as [_ ->].
    by apply strip_all_space.
Qed.

(** *** [target_line] *)

Lemma target_line_Some ls i line :
  target_line ls = Some (i, line) <->
  ls !! i = Some line /\ is_target line = true
  /\ Forall (fun l => is_target l = false) (take i ls).
Proof.
  unfold target_line. rewrite list_find_Some. 
  split; intros (Hi & Ht & Hpre); (split; [done|split; [done|]]).
  - apply Forall_forall. intros l Hl.
    apply list_elem_of_lookup in Hl as [j Hj].
    pose proof (lookup_lt_Some _ _ _ Hj) as Hlt. rewrite length_take in Hlt.
    rewrite lookup_take_lt in Hj by lia.
    apply not_true_is_false. eapply Hpre; [done|lia].
  - intros j y Hj Hlt Hy. rewrite Forall_forall in Hpre.
    assert (y ∈ take i ls) as Hin.
    { apply list_elem_of_lookup. exists j. by rewrite lookup_take_lt. }
    apply Hpre in Hin. congruence.
Qed.

Lemma target_line_None ls :
  target_line ls = None <-> Forall (fun l => is_target l = false) ls.
Proof.
  unfold target_line. rewrite list_find_None.
  apply Forall_proper; [|done]. intros l. by rewrite not_true_iff_false.
Qed.

Lemma target_line_cons l ls :
  target_line (l :: ls)
  = if is_target l then Some (0, l)
    else prod_map S id <$> target_line ls.
Proof.
  unfold target_line. simpl. case_decide as Hl.
  - by rewrite Hl.
  - apply not_true_is_false in Hl. by rewrite Hl.
Qed.

(** After the replacement the target line is the new line, at the same
    place. *)
Lemma target_line_insert ls i line new :
  target_line ls = Some (i, line) ->
  target_line (<[i := patched_line new]> ls) = Some (i, patched_line new).
Proof.
  rewrite !target_line_Some. intros (Hi & _ & Hpre).
  pose proof (lookup_lt_Some _ _ _ Hi) as Hlt.
  split; [by apply list_lookup_insert_eq|].
  split; [apply is_target_patched|].
  by rewrite take_insert_ge by lia.
Qed.
End LineFacts.

(** ** The script, step by step *)

Module ScriptFacts.
Import PyStr TextIO StrFacts TextFacts LineFacts.

Lemma world_eq w1 w2 :
  fs w1 = fs w2 -> garbled w1 = garbled w2 ->
  stdout w1 = stdout w2 -> trace w1 = trace w2 -> w1 = w2.
Proof. destruct w1, w2; simpl; by intros -> -> -> ->. Qed.

Ltac same_world :=
  apply world_eq; simpl; rewrite <- ?(assoc_L (++)), ?app_nil_r; done.

Ltac run_step :=
  unfold mbind, script_bind, mret, script_ret, sys_exit, uncaught,
    print, shutil_which, open_readlines, check_output, open_writelines;
  simpl.

Section WithEnv.
Variable E : Env.

Lemma scan_lines_summary k p i todo st w :
  scan_lines E k p i todo st w
  = scan_summary E k p i st w (target_line todo).
Proof.
  revert i. induction todo as [|l todo IH]; intros i; [done|].
  rewrite target_line_cons. simpl.
  destruct (is_target l) eqn:Hl.
  - rewrite split1_target by done. run_step.
    fold (url_of l). fold (rewrite_argv E (url_of l)).
    destruct (run_tool E k (rewrite_argv E (url_of l))) as [out|e|]; simpl.
    + rewrite Nat.add_0_r.
      destruct (String.eqb (strip out) (url_of l)); simpl;
        (f_equal; same_world).
    + f_equal; same_world.
    + f_equal; same_world.
  - rewrite IH. destruct (target_line todo) as [[j line]|]; [|done].
    simpl. by rewrite Nat.add_succ_r.
Qed.

Lemma file_outcome_world k p w f r w1 w2 :
  file_outcome E k p w f r w1 -> w1 = w2 -> file_outcome E k p w f r w2.
Proof. by intros H <-. Qed.

(** One iteration does what its fate says. *)
Lemma process_file_outcome k p w :
  file_outcome E k p w (file_fate E k p w)
    (process_file E k p w).1 (process_file E k p w).2.
Proof.
  unfold process_file, file_fate. run_step.
  destruct (which E k (mx_exec E)) eqn:Hwhich; simpl.
  2: { eapply file_outcome_world; [by constructor|same_world]. }
  destruct (fs w !! p) as [bytes|] eqn:Hp; simpl.
  2: { eapply file_outcome_world; [constructor; auto|same_world]. }
  destruct (read_denied E k p) eqn:Hden; simpl.
  { eapply file_outcome_world; [constructor; auto|same_world]. }
  destruct (bool_decide_reflect (p ∈ garbled w)) as [Hbad|Hgood]; simpl.
  { eapply file_outcome_world; [by eapply fo_undecodable|same_world]. }
  assert (reads E k p w bytes) as Hreads by done.
  rewrite scan_lines_summary. fold (text_lines bytes).
  destruct (target_line (text_lines bytes)) as [[i line]|] eqn:Ht; simpl.
  2: { eapply file_outcome_world; [by eapply fo_key_not_found|same_world]. }
  destruct (run_tool E k (rewrite_argv E (url_of line))) as [out|e|] eqn:Htool;
    simpl.
  2: { eapply file_outcome_world; [by econstructor|same_world]. }
  2: { eapply file_outcome_world; [by eapply fo_tool_raises|same_world]. }
  destruct (String.eqb_spec (strip out) (url_of line)) as [Heq|Hne]; simpl.
  { eapply file_outcome_world; [by econstructor|same_world]. }
  destruct (write_fault_at E k p) as [| |n] eqn:Hwf; simpl.
  - eapply file_outcome_world; [by eapply fo_patched|same_world].
  - eapply file_outcome_world; [by eapply fo_open_fails|same_world].
  - eapply file_outcome_world; [by eapply fo_write_fails|same_world].
Qed.



(** An iteration opens no file but its own, changes no other file, and
    only adds to the trace and to the output. *)
Lemma file_outcome_frame k p w f r w' :
  file_outcome E k p w f r w' ->
  (forall q, q <> p -> fs w' !! q = fs w !! q)
  /\ exists tr msgs,
       trace w' = trace w ++ tr /\ stdout w' = stdout w ++ msgs
       /\ Forall (fun e => forall q, event_path e = Some q -> q = p) tr.
Proof.
  destruct 1; (split; [intros q Hq; simpl; by rewrite ?lookup_insert_ne|]);
    eexists _, _; (split; [done|split; [done|]]);
    repeat constructor; simpl; congruence.
Qed.

Lemma process_file_frame k p w :
  (forall q, q <> p -> fs (process_file E k p w).2 !! q = fs w !! q)
  /\ exists tr msgs,
       trace (process_file E k p w).2 = trace w ++ tr
       /\ stdout (process_file E k p w).2 = stdout w ++ msgs
       /\ Forall (fun e => forall q, event_path e = Some q -> q = p) tr.
Proof. eapply file_outcome_frame, process_file_outcome. Qed.

(** *** The loop over the paths *)

Lemma for_each_cons k p rest w :
  for_each E k (p :: rest) w
  = match process_file E k p w with
    | (Next _, w1) => for_each E (S k) rest w1
    | (Exit c, w1) => (Exit c, w1)
    end.
Proof. done. Qed.

(** The loop gets to an iteration exactly by completing the ones before
    it; from there on it is the loop over the remaining paths. *)
Lemma reaches_split k0 paths w0 k p w :
  reaches E k0 paths w0 k p w ->
  exists pre post,
    paths = pre ++ p :: post /\ k = k0 + List.length pre
    /\ for_each E k0 paths w0 = for_each E k (p :: post) w
    /\ exists tr, trace w = trace w0 ++ tr /\ in_order pre tr.
Proof.
  induction 1 as [k0 p rest w|k0 p rest w w1 k q wk Hp _ IH].
  - exists [], rest. repeat split; [simpl; lia|].
    exists []. rewrite app_nil_r. split; [done|constructor].
  - destruct IH as (pre & post & -> & -> & Hloop & tr & Htr & Hord).
    exists (p :: pre), post. repeat split; [simpl; lia| |].
    + rewrite <- Hloop. rewrite (for_each_cons k0 p). by rewrite Hp.
    + destruct (process_file_frame k0 p w) as (_ & seg & msgs & Hseg & _ & Hown).
      rewrite Hp in Hseg. simpl in Hseg.
      exists (seg ++ tr). rewrite Htr, Hseg, (assoc_L (++)). split; [done|].
      by constructor.
Qed.

(** An [exit] in an iteration the loop gets to ends the whole loop. *)
Lemma loop_stops k0 paths w0 k p w c :
  reaches E k0 paths w0 k p w ->
  (process_file E k p w).1 = Exit c ->
  for_each E k0 paths w0 = (Exit c, (process_file E k p w).2).
Proof.
  intros (pre & post & _ & _ & -> & _)%reaches_split Hx.
  rewrite for_each_cons. destruct (process_file E k p w) as [r w1].
  simpl in *. by subst r.
Qed.


(** Segments may be empty: paths can be put in front of an ordered
    trace, and a segment for one more path can follow it. *)
Lemma in_order_last pre p seg :
  Forall (fun e => forall q, event_path e = Some q -> q = p) seg ->
  in_order (pre ++ [p]) seg.
Proof.
  intros Hseg. induction pre as [|p0 pre IH]; simpl.
  - rewrite <- (app_nil_r seg). constructor; [done|constructor].
  - change seg with ([] ++ seg). by constructor.
Qed.

Lemma in_order_snoc pre tr p seg :
  in_order pre tr ->
  Forall (fun e => forall q, event_path e = Some q -> q = p) seg ->
  in_order (pre ++ [p]) (tr ++ seg).
Proof.
  intros Hord Hseg. induction Hord as [paths|p0 rest seg0 tr Hown _ IH].
  - by apply in_order_last.
  - simpl. rewrite <- (assoc_L (++)). by constructor.
Qed.

(** The loop changes no file outside its paths and opens none. *)
Lemma for_each_frame k paths w q :
  q ∉ paths ->
  fs (for_each E k paths w).2 !! q = fs w !! q
  /\ exists tr, trace (for_each E k paths w).2 = trace w ++ tr
                /\ Forall (fun e => event_path e <> Some q) tr.
Proof.
  revert k w. induction paths as [|p rest IH]; intros k w Hq.
  - simpl. split; [done|]. exists []. by rewrite app_nil_r.
  - apply not_elem_of_cons in Hq as [Hqp Hq]. rewrite for_each_cons.
    destruct (process_file_frame k p w) as (Hfs & seg & msgs & Hseg & _ & Hown).
    assert (Forall (fun e => event_path e <> Some q) seg) as Hseg'.
    { eapply Forall_impl; [exact Hown|]. intros e He Heq.
      apply He in Heq. done. }
    destruct (process_file E k p w) as [[[]|c] w1]; simpl in *.
    + destruct (IH (S k) w1 Hq) as (Hfs' & tr & Htr & Hno).
      split; [by rewrite Hfs', Hfs|].
      exists (seg ++ tr). rewrite Htr, Hseg, (assoc_L (++)).
      split; [done|]. by apply Forall_app.
    + split; [by apply Hfs|]. by exists seg.
Qed.
End WithEnv.
End ScriptFacts.

(** ** The claims of the specification *)

Module Claims.
Import PyStr TextIO StrFacts TextFacts LineFacts ScriptFacts Examples.

Lemma main_paths E prog paths k p w0 w :
  reaches E 0 paths w0 k p w ->
  main E (prog :: paths) w0 = for_each E 0 paths w0.
Proof. intros Hr. inversion Hr; done. Qed.

Lemma run_stops E prog paths w0 k p w c w' :
  reaches E 0 paths w0 k p w ->
  process_file E k p w = (Exit c, w') ->
  run E (prog :: paths) w0 = (c, w').
Proof.
  intros Hr Hp. unfold run. rewrite (main_paths _ _ _ _ _ _ _ Hr).
  rewrite (loop_stops _ _ _ _ _ _ _ c Hr); by rewrite Hp.
Qed.

(** Read the outcome of an iteration off the facts at hand. *)
Ltac open_facts :=
  repeat match goal with
    | H : reads _ _ _ _ _ |- _ => destruct H as (? & ? & ? & ?)
    | H : rewrites _ _ _ _ _ _ |- _ => destruct H as (? & ?)
    end.

(** A file of a world without undecodable files is read. *)
Ltac reads_here :=
  split; [reflexivity|];
  split; [reflexivity|];
  split; [reflexivity|];
  apply not_elem_of_empty.

Ltac use_facts H :=
  repeat match goal with
    | F : ?x = _ |- _ =>
        match type of H with context [x] => rewrite F in H end
    end.

Ltac outcome E k p w Hp :=
  let Hout := fresh "Hout" in
  pose proof (process_file_outcome E k p w) as Hout;
  open_facts;
  unfold file_fate in Hout; use_facts Hout; simpl in Hout;
  try match goal with
    | H : ?q ∉ garbled ?v |- _ => rewrite (bool_decide_eq_false_2 _ H) in Hout
    end;
  use_facts Hout; simpl in Hout;
  repeat match type of Hout with
    | context [String.eqb ?a ?b] =>
        destruct (String.eqb_spec a b); try congruence
    end;
  destruct (process_file E k p w) as [? ?] eqn:Hp; simpl in Hout;
  inversion Hout; subst; open_facts; simplify_eq;
  repeat match goal with
    | H1 : ?x = ?a, H2 : ?x = ?b |- _ =>
        assert (a = b) by congruence; clear H2; simplify_eq
    end.

Lemma run_single E prog p w :
  run E [prog; p] w
  = (exit_status (process_file E 0 p w).1, (process_file E 0 p w).2).
Proof.
  unfold run, main. simpl. unfold mbind, script_bind.
  by destruct (process_file E 0 p w) as [[[]|c] w1].
Qed.

(** C6.  When the loop gets to a file and [shutil.which] does not find
    the executable ([mx.cmd] where [os.name] is [nt], [mx] elsewhere), the
    run ends at once with status 0: one line naming the file is printed,
    the search is the only operation performed, no file is read or
    changed, and the remaining paths are not looked at. *)
Theorem tool_absent_ends_run E prog paths w0 k p w :
  reaches E 0 paths w0 k p w ->
  which E k (if String.eqb (os_name E) "nt" then "mx.cmd" else "mx") = false ->
  exists w',
    run E (prog :: paths) w0 = (0%Z, w')
    /\ fs w' = fs w
    /\ stdout w' = stdout w
         ++ ["mx executable not found, not rewriting distributionUrl in " +:+ p]
    /\ trace w' = trace w
         ++ [EvWhich (if String.eqb (os_name E) "nt" then "mx.cmd" else "mx")].
Proof.
  intros Hr Hwhich. fold (mx_exec E) in *.
  pose proof (process_file_outcome E k p w) as Hout.
  unfold file_fate in Hout. rewrite Hwhich in Hout.
  destruct (process_file E k p w) as [r w'] eqn:Hp. simpl in Hout.
  inversion Hout; subst. eexists. split; [by eapply run_stops|done].
Qed.

Lemma tool_absent_ends_run_witness :
  exists w',
    run no_mx_env ["patch"; props; other] scenario_a = (0%Z, w')
    /\ fs w' = fs scenario_a
    /\ stdout w' = stdout scenario_a
         ++ ["mx executable not found, not rewriting distributionUrl in " +:+ props]
    /\ trace w' = trace scenario_a ++ [EvWhich "mx"].
Proof.
  apply (tool_absent_ends_run no_mx_env "patch" [props; other] scenario_a 0
           props scenario_a).
  - apply reaches_head.
  - reflexivity.
Defined.

(** C4.  When the loop gets to a file that is read and none of whose
    lines, trimmed, starts with [distributionUrl=], the run ends with
    status 1 after printing that the key was not found, and the file
    system is as it was: the file holds the bytes that were read. *)
Theorem missing_key_fails E prog paths w0 k p w bytes :
  reaches E 0 paths w0 k p w ->
  reads E k p w bytes ->
  Forall (fun l => startswith (strip l) "distributionUrl=" = false)
         (text_lines bytes) ->
  exists w',
    run E (prog :: paths) w0 = (1%Z, w')
    /\ fs w' = fs w
    /\ fs w' !! p = Some bytes
    /\ stdout w' = stdout w ++ ["Did not find 'distributionUrl' in " +:+ p].
Proof.
  intros Hr Hreads Hnone%target_line_None.
  assert (fs w !! p = Some bytes) as Hbytes by apply Hreads.
  outcome E k p w Hp.
  eexists. split; [by eapply run_stops|done].
Qed.

Lemma missing_key_fails_witness :
  exists w',
    run (posix_env mirror WriteOk) ["patch"; props] scenario_c = (1%Z, w')
    /\ fs w' = fs scenario_c
    /\ fs w' !! props = Some ("distributionBase=GRADLE_USER_HOME" +:+ nl)
    /\ stdout w' = stdout scenario_c
         ++ ["Did not find 'distributionUrl' in " +:+ props].
Proof.
  apply (missing_key_fails (posix_env mirror WriteOk) "patch" [props]
           scenario_c 0 props scenario_c).
  - apply reaches_head.
  - reads_here.
  - vm_compute. repeat constructor.
Defined.

(** C5.  When the file is read, its first target line is found, and the
    tool's answer, trimmed, equals the URL taken from that line, the run
    on that file ends with status 0, the file system is unchanged, and the
    one line printed says that the file is already set to that URL. *)
Theorem same_url_leaves_file E prog p w bytes i line out :
  reads E 0 p w bytes ->
  rewrites E 0 bytes i line (ToolOutput out) ->
  strip out = url_of line ->
  exists w',
    run E [prog; p] w = (0%Z, w')
    /\ fs w' = fs w
    /\ fs w' !! p = Some bytes
    /\ stdout w' = stdout w
         ++ ["distributionUrl in " +:+ p +:+ " is already set to " +:+ strip out].
Proof.
  intros Hreads Hrw Hsame.
  assert (fs w !! p = Some bytes) as Hbytes by apply Hreads.
  outcome E 0 p w Hp.
  eexists. rewrite run_single, Hp. done.
Qed.

Lemma same_url_leaves_file_witness :
  exists w',
    run (posix_env mirror WriteOk) ["patch"; props] at_mirror = (0%Z, w')
    /\ fs w' = fs at_mirror
    /\ fs w' !! props
       = Some ("distributionUrl=https://mirror.example.com/old.zip" +:+ nl)
    /\ stdout w' = stdout at_mirror
         ++ ["distributionUrl in " +:+ props +:+ " is already set to "
             +:+ strip ("https://mirror.example.com/old.zip" +:+ nl)].
Proof.
  apply (same_url_leaves_file (posix_env mirror WriteOk) "patch" props
           at_mirror _ 0 ("distributionUrl=https://mirror.example.com/old.zip" +:+ nl)
           ("https://mirror.example.com/old.zip" +:+ nl)).
  - reads_here.
  - split; reflexivity.
  - reflexivity.
Defined.

(** C10.  A line whose trimmed text is exactly [distributionUrl=] is a
    target line; the value split off after its first [=] trims to the
    empty string; when it is the first target line the scan calls the
    tool with the empty string as URL and treats the trimmed answer as
    for any other line: already set when it is empty, else the line is
    replaced by [distributionUrl=<answer>] and a line feed; a call that
    fails or raises ends the script as for any other line. *)
Theorem empty_value_is_target E k p i pre line post st w :
  Forall (fun l => is_target l = false) pre ->
  strip line = "distributionUrl=" ->
  is_target line = true
  /\ (exists value, split1 EQUALS line !! 1 = Some value
                    /\ strip value = EmptyString)
  /\ scan_lines E k p i (pre ++ line :: post) st w
     = match run_tool E k [mx_exec E; "urlrewrite"; EmptyString] with
       | ToolOutput out =>
           if String.eqb (strip out) EmptyString then
             (Next {| lines := lines st; found := true; updated := false;
                      new_url := Some (strip out) |},
              advance [EvExec [mx_exec E; "urlrewrite"; EmptyString]]
                ["distributionUrl in " +:+ p +:+ " is already set to "
                 +:+ strip out] w)
           else
             (Next {| lines := <[i + List.length pre
                                 := "distributionUrl=" +:+ strip out +:+ nl]>
                                 (lines st);
                      found := true; updated := true;
                      new_url := Some (strip out) |},
              advance [EvExec [mx_exec E; "urlrewrite"; EmptyString]] [] w)
       | CalledProcessError e =>
           (Exit 1,
            advance [EvExec [mx_exec E; "urlrewrite"; EmptyString]]
              ["Command `" +:+ mx_exec E +:+ " urlrewrite " +:+ EmptyString
               +:+ "` failed: " +:+ e] w)
       | ToolRaises =>
           (Exit 1, advance [EvExec [mx_exec E; "urlrewrite"; EmptyString]] [] w)
       end.
Proof.
  intros Hpre Hline. destruct (url_of_empty line Hline) as [Ht Hurl].
  split; [done|]. split.
  - exists (after_first EQUALS line). split; [by apply split1_target|done].
  - assert (target_line (pre ++ line :: post) = Some (List.length pre, line))
      as Hfind.
    { apply target_line_Some. split; [by apply list_lookup_middle|].
      split; [done|]. by rewrite take_app_length. }
    rewrite scan_lines_summary, Hfind. unfold scan_summary.
    rewrite Hurl. done.
Qed.

Lemma empty_value_is_target_witness :
  is_target ("distributionUrl=" +:+ nl) = true
  /\ (exists value, split1 EQUALS ("distributionUrl=" +:+ nl) !! 1 = Some value
                    /\ strip value = EmptyString)
  /\ scan_lines (posix_env mirror WriteOk) 0 props 0
       ([] ++ ("distributionUrl=" +:+ nl) :: [])
       {| lines := ["distributionUrl=" +:+ nl]; found := false;
          updated := false; new_url := None |} empty_value
     = match run_tool (posix_env mirror WriteOk) 0
               [mx_exec (posix_env mirror WriteOk); "urlrewrite"; EmptyString] with
       | ToolOutput out =>
           if String.eqb (strip out) EmptyString then
             (Next {| lines := ["distributionUrl=" +:+ nl]; found := true;
                      updated := false; new_url := Some (strip out) |},
              advance [EvExec [mx_exec (posix_env mirror WriteOk);
                               "urlrewrite"; EmptyString]]
                ["distributionUrl in " +:+ props +:+ " is already set to "
                 +:+ strip out] empty_value)
           else
             (Next {| lines := <[0 + List.length (@nil string)
                                 := "distributionUrl=" +:+ strip out +:+ nl]>
                                 ["distributionUrl=" +:+ nl];
                      found := true; updated := true;
                      new_url := Some (strip out) |},
              advance [EvExec [mx_exec (posix_env mirror WriteOk);
                               "urlrewrite"; EmptyString]] [] empty_value)
       | CalledProcessError e =>
           (Exit 1,
            advance [EvExec [mx_exec (posix_env mirror WriteOk);
                             "urlrewrite"; EmptyString]]
              ["Command `" +:+ mx_exec (posix_env mirror WriteOk)
               +:+ " urlrewrite " +:+ EmptyString +:+ "` failed: " +:+ e]
              empty_value)
       | ToolRaises =>
           (Exit 1,
            advance [EvExec [mx_exec (posix_env mirror WriteOk);
                             "urlrewrite"; EmptyString]] [] empty_value)
       end.
Proof.
  apply (empty_value_is_target (posix_env mirror WriteOk) 0 props 0 []
           ("distributionUrl=" +:+ nl) []).
  - constructor.
  - reflexivity.
Defined.

Lemma string_cons_eq c s d t : String c s = String d t -> c = d /\ s = t.
Proof. by intros [= -> ->]. Qed.

Lemma lines_around (ls : list string) i line :
  ls !! i = Some line ->
  join ls = join (take i ls) +:+ line +:+ join (drop (S i) ls)
  /\ forall new, join (<[i := new]> ls)
                 = join (take i ls) +:+ new +:+ join (drop (S i) ls).
Proof.
  intros Hi. pose proof (lookup_lt_Some _ _ _ Hi) as Hlt. split.
  - rewrite <- (take_drop_middle ls i line Hi) at 1. by rewrite join_app.
  - intros new. rewrite insert_take_drop by done. by rewrite join_app.
Qed.

(** C1, as the script has it.  When the file is read, its first target
    line is [line] at index [i], the tool's trimmed answer differs from
    the URL of that line, and the write succeeds, then the iteration
    completes and the file holds the lines before [i], the line
    [distributionUrl=<answer>] with a line feed, and the lines after [i],
    every line feed written as [os.linesep]; the tool was called once, for
    the URL of [line].  The text that was read (the
    bytes with CR LF and CR turned into LF) is the same lines with [line]
    in the middle, no line before [i] is a target line, the new line is
    not [line], and the answer carries no whitespace around it.  So
    exactly that line changes in the text; the other lines are the same
    bytes as before when the file already had [os.linesep] at every line
    end, and have their line ends normalised otherwise. *)
Theorem patch_replaces_first_target E k p w bytes i line out :
  reads E k p w bytes ->
  rewrites E k bytes i line (ToolOutput out) ->
  strip out <> url_of line ->
  write_fault_at E k p = WriteOk ->
  let before := join (take i (text_lines bytes)) in
  let after := join (drop (S i) (text_lines bytes)) in
  let new_line := "distributionUrl=" +:+ strip out +:+ nl in
  let disk := translate_newlines (os_linesep E) in
  exists w',
    process_file E k p w = (Next (), w')
    /\ fs w' = <[p := disk before +:+ disk new_line +:+ disk after]> (fs w)
    /\ trace w' = trace w ++ [EvWhich (mx_exec E); EvRead p;
                              EvExec [mx_exec E; "urlrewrite"; url_of line];
                              EvWrite p]
    /\ universal_newlines bytes = before +:+ line +:+ after
    /\ Forall (fun l => is_target l = false) (take i (text_lines bytes))
    /\ is_target line = true
    /\ new_line <> line
    /\ strip (strip out) = strip out
    /\ (disk (universal_newlines bytes) = bytes ->
        bytes = disk before +:+ disk line +:+ disk after).
Proof.
  intros Hreads Hrw Hne Hwf before after new_line disk.
  assert (target_line (text_lines bytes) = Some (i, line)) as Hfind
    by apply Hrw.
  apply target_line_Some in Hfind as (Hi & Ht & Hpre).
  destruct (lines_around _ _ _ Hi) as [Hold Hnew].
  unfold text_lines in Hold at 1. rewrite join_readlines in Hold.
  outcome E k p w Hp.
  eexists. split; [done|]. split.
  { simpl. f_equal. unfold written. rewrite Hnew.
    by rewrite !translate_app. }
  split; [done|]. split; [done|]. split; [done|]. split; [done|].
  split; [by apply patched_line_changes|].
  split; [apply strip_idemp|].
  intros Hnative. rewrite <- Hnative at 1. rewrite Hold.
  unfold disk. by rewrite !translate_app.
Qed.

Lemma patch_replaces_first_target_witness :
  let E := posix_env mirror WriteOk in
  let bytes := "distributionBase=GRADLE_USER_HOME" +:+ nl
     +:+ "distributionUrl=https://example.com/old.zip" +:+ nl
     +:+ "zipStoreBase=GRADLE_USER_HOME" +:+ nl in
  let line := "distributionUrl=https://example.com/old.zip" +:+ nl in
  let out := "https://mirror.example.com/old.zip" +:+ nl in
  let before := join (take 1 (text_lines bytes)) in
  let after := join (drop 2 (text_lines bytes)) in
  let new_line := "distributionUrl=" +:+ strip out +:+ nl in
  let disk := translate_newlines (os_linesep E) in
  exists w',
    process_file E 0 props scenario_a = (Next (), w')
    /\ fs w' = <[props := disk before +:+ disk new_line +:+ disk after]>
                 (fs scenario_a)
    /\ trace w' = trace scenario_a
                  ++ [EvWhich (mx_exec E); EvRead props;
                      EvExec [mx_exec E; "urlrewrite"; url_of line];
                      EvWrite props]
    /\ universal_newlines bytes = before +:+ line +:+ after
    /\ Forall (fun l => is_target l = false) (take 1 (text_lines bytes))
    /\ is_target line = true
    /\ new_line <> line
    /\ strip (strip out) = strip out
    /\ (disk (universal_newlines bytes) = bytes ->
        bytes = disk before +:+ disk line +:+ disk after).
Proof.
  apply (patch_replaces_first_target (posix_env mirror WriteOk) 0 props
           scenario_a _ 1 ("distributionUrl=https://example.com/old.zip" +:+ nl)
           ("https://mirror.example.com/old.zip" +:+ nl)).
  - reads_here.
  - split; reflexivity.
  - vm_compute. discriminate.
  - reflexivity.
Defined.

(** C1 as stated fails on a file with CR LF line ends read on a POSIX
    machine: the run succeeds and rewrites the URL, but the line before
    the target line loses its CR, so the new content is not the old
    content with one piece exchanged for the new line. *)
Lemma crlf_lines_not_preserved :
  let E := posix_env mirror WriteOk in
  let bytes := "distributionBase=GRADLE_USER_HOME" +:+ String CR nl
     +:+ "distributionUrl=https://example.com/old.zip" +:+ String CR nl in
  let result := "distributionBase=GRADLE_USER_HOME" +:+ nl
     +:+ "distributionUrl=https://mirror.example.com/old.zip" +:+ nl in
  fs crlf_file !! props = Some bytes
  /\ (exists w', run E ["patch"; props] crlf_file = (0%Z, w')
                 /\ fs w' !! props = Some result)
  /\ ~ exists before old_line after,
         bytes = before +:+ old_line +:+ after
         /\ result = before
              +:+ ("distributionUrl=https://mirror.example.com/old.zip" +:+ nl)
              +:+ after.
Proof.
  intros E bytes result. split; [reflexivity|]. split.
  { eexists. split; [vm_compute; reflexivity|reflexivity]. }
  intros (before & old_line & after & Hb & Hr).
  vm_compute in Hb, Hr.
  repeat (destruct before as [|? before];
          [vm_compute in Hr; discriminate Hr|];
          vm_compute in Hb, Hr;
          apply string_cons_eq in Hb as [<- Hb];
          apply string_cons_eq in Hr as [Hc Hr];
          try discriminate Hc; clear Hc).
Qed.

(** C2, as the script has it.  One iteration performs at most the search
    for the tool, one read of the file, one call of the tool and one
    write, in this order, so the file is read in full before anything is
    written.  When no write is issued the file system is untouched.  When
    a write is issued it is of the complete new content, computed from the
    bytes that were read: if it succeeds the file holds that content; if
    the file cannot be opened for writing the iteration ends with status 1
    and the file system is untouched; if the write fails after the file
    was opened the iteration ends with status 1 and the file is left with
    the first [n] bytes of the new content, whatever the old content
    was. *)
Theorem write_back_whole_or_cut E k p w :
  let r := (process_file E k p w).1 in
  let w' := (process_file E k p w).2 in
  exists argv tr,
    trace w' = trace w ++ tr
    /\ tr `prefix_of` [EvWhich (mx_exec E); EvRead p; EvExec argv; EvWrite p]
    /\ ((Observations.writes_of tr = [] /\ fs w' = fs w)
        \/ (Observations.writes_of tr = [p]
            /\ exists bytes i new,
                 fs w !! p = Some bytes
                 /\ let data :=
                      written E (<[i := "distributionUrl=" +:+ new +:+ nl]>
                                   (text_lines bytes)) in
                    match write_fault_at E k p with
                    | WriteOk => r = Next () /\ fs w' = <[p := data]> (fs w)
                    | OpenFails => r = Exit 1 /\ fs w' = fs w
                    | WriteFailsAfter n =>
                        r = Exit 1 /\ fs w' = <[p := take_chars n data]> (fs w)
                    end)).
Proof.
  intros r w'. subst r w'.
  pose proof (process_file_outcome E k p w) as Hout.
  destruct (process_file E k p w) as [r w']. simpl in *.
  destruct Hout; open_facts;
    (first [exists (rewrite_argv E (url_of line)) | exists (@nil string)]);
    eexists; (split; [simpl; reflexivity|]);
    (split; [by eexists|]); simpl;
    first [ by left
          | right; split; [done|]; exists bytes, i, (strip out);
            split; [assumption|];
            simpl;
            match goal with H : write_fault_at _ _ _ = _ |- _ => rewrite H end;
            done ].
Qed.

(** C2 as stated fails when the write breaks off after the file was
    opened: the run reports the write error and ends with status 1, and
    the file is left with the first 40 bytes of the new content instead of
    its original content. *)
Lemma failed_write_cuts_file :
  let E := posix_env mirror (WriteFailsAfter 40) in
  exists w',
    run E ["patch"; props] scenario_a = (1%Z, w')
    /\ last (stdout w')
       = Some ("Error writing file: " +:+ props
               +:+ ", distributionUrl not updated according to mx urlrewrites")
    /\ fs w' !! props
       = Some ("distributionBase=GRADLE_USER_HOME" +:+ nl +:+ "distri")
    /\ fs w' !! props <> fs scenario_a !! props.
Proof.
  eexists. split; [vm_compute; reflexivity|].
  split; [reflexivity|]. split; [reflexivity|]. vm_compute. discriminate.
Qed.






(** C8.  The loop works on one path at a time, in the order of the
    arguments.  When it gets to a path whose iteration ends with status 1,
    the run ends there with status 1: the operations performed fall into
    consecutive segments for the paths up to that one, in order, each
    segment opening only its own path, and nothing is done for a later
    path.  The files are as the earlier iterations left them, except
    that the failing path itself is cut short when its write fails after
    the open. *)
Theorem first_error_ends_run E prog paths w0 k p w w' :
  reaches E 0 paths w0 k p w ->
  process_file E k p w = (Exit 1, w') ->
  run E (prog :: paths) w0 = (1%Z, w')
  /\ (exists tr, trace w' = trace w0 ++ tr /\ in_order (take (S k) paths) tr)
  /\ (forall q, q <> p -> fs w' !! q = fs w !! q)
  /\ (fs w' = fs w \/ exists n, write_fault_at E k p = WriteFailsAfter n).
Proof.
  intros Hr Hp. split; [by eapply run_stops|].
  destruct (reaches_split E _ _ _ _ _ _ Hr)
    as (pre & post & -> & -> & _ & tr & Htr & Hord).
  destruct (process_file_frame E (0 + List.length pre) p w)
    as (Hfs & seg & msgs & Hseg & _ & Hown).
  pose proof (process_file_outcome E (0 + List.length pre) p w) as Hout.
  rewrite Hp in Hfs, Hseg, Hout. simpl in *.
  split; [|split; [done|]].
  - exists (tr ++ seg). rewrite Hseg, Htr, (assoc_L (++)). split; [done|].
    replace (take (S (List.length pre)) (pre ++ p :: post)) with (pre ++ [p]).
    + by apply in_order_snoc.
    + rewrite take_app, take_ge by lia.
      by replace (S (List.length pre) - List.length pre) with 1 by lia.
  - inversion Hout; subst; simpl; eauto.
Qed.

(** Scenario D: the first file is patched, the second cannot be read. *)
Lemma first_error_ends_run_witness :
  let E := posix_env mirror WriteOk in
  let w := (process_file E 0 props scenario_a).2 in
  let w' := (process_file E 1 other w).2 in
  run E ["patch"; props; other; props] scenario_a = (1%Z, w')
  /\ (exists tr, trace w' = trace scenario_a ++ tr
                 /\ in_order (take 2 [props; other; props]) tr)
  /\ (forall q, q <> other -> fs w' !! q = fs w !! q)
  /\ (fs w' = fs w \/ exists n, write_fault_at E 1 other = WriteFailsAfter n).
Proof.
  intros E w w'.
  apply (first_error_ends_run E "patch" [props; other; props] scenario_a 1
           other w w').
  - apply reaches_tail with (w1 := w); [reflexivity|apply reaches_head].
  - reflexivity.
Defined.

(** C9.  Once the iteration for a path has completed, what the rest of
    the run does, however it ends, neither changes nor opens that file,
    provided the path is not given again later in the arguments: the file
    at the end of the run is the file as that iteration left it, and the
    operations performed after it are on other paths. *)
Theorem later_files_leave_patched_file E prog paths w0 k p w w1 :
  reaches E 0 paths w0 k p w ->
  process_file E k p w = (Next (), w1) ->
  p ∉ drop (S k) paths ->
  let w_end := (run E (prog :: paths) w0).2 in
  fs w_end !! p = fs w1 !! p
  /\ exists tr, trace w_end = trace w1 ++ tr
                /\ Forall (fun e => event_path e <> Some p) tr.
Proof.
  intros Hr Hp Hlater w_end. subst w_end.
  unfold run. rewrite (main_paths _ _ _ _ _ _ _ Hr).
  destruct (reaches_split E _ _ _ _ _ _ Hr)
    as (pre & post & -> & -> & Hloop & _).
  rewrite Hloop, for_each_cons, Hp.
  replace (drop (S (0 + List.length pre)) (pre ++ p :: post)) with post in Hlater.
  2: { simpl. rewrite drop_app, drop_ge by lia.
       by replace (S (List.length pre) - List.length pre) with 1 by lia. }
  destruct (for_each_frame E (S (0 + List.length pre)) post w1 p Hlater)
    as (Hfs & tr & Htr & Hno).
  destruct (for_each E (S (0 + List.length pre)) post w1) as [r w2].
  simpl in *. split; [done|]. by exists tr.
Qed.

Lemma later_files_leave_patched_file_witness :
  let E := posix_env mirror WriteOk in
  let w1 := (process_file E 0 props scenario_a).2 in
  let w_end := (run E ["patch"; props; other] scenario_a).2 in
  fs w_end !! props = fs w1 !! props
  /\ exists tr, trace w_end = trace w1 ++ tr
                /\ Forall (fun e => event_path e <> Some props) tr.
Proof.
  intros E w1.
  apply (later_files_leave_patched_file E "patch" [props; other] scenario_a 0
           props scenario_a w1).
  - apply reaches_head.
  - reflexivity.
  - vm_compute. intros Hin. apply list_elem_of_In in Hin.
    destruct Hin as [Heq|[]]. discriminate Heq.
Defined.

Lemma os_linesep_cases E : os_linesep E = nl \/ os_linesep E = String CR nl.
Proof. unfold os_linesep. destruct (String.eqb _ _); auto. Qed.

Lemma text_lines_no_cr bytes :
  Forall (fun l => contains CR l = false) (text_lines bytes).
Proof.
  apply contains_join. unfold text_lines. rewrite join_readlines.
  apply universal_newlines_no_cr.
Qed.

(** What was written is read back as the lines that were written, when
    the new line holds no line break. *)
Lemma text_lines_written E bytes i line new :
  text_lines bytes !! i = Some line ->
  single_line new = true ->
  text_lines (written E (<[i := patched_line new]> (text_lines bytes)))
  = <[i := patched_line new]> (text_lines bytes).
Proof.
  intros Hi [Hlf Hcr]%andb_prop.
  apply negb_true_iff in Hlf, Hcr.
  unfold text_lines at 1, written.
  rewrite universal_translate.
  - unfold text_lines. eapply readlines_join_insert; [exact Hi|].
    by apply terminated_patched.
  - apply os_linesep_cases.
  - apply contains_join, Forall_insert; [apply text_lines_no_cr|].
    unfold patched_line. by rewrite !contains_app, Hcr.
Qed.

(** C7, as the script has it.  Let the tool be present and be the same
    function of the URL on both runs, idempotent on trimmed values, and
    let its trimmed answers hold no line break.  After a run on one file
    that ended with status 0, a second run on that file leaves the file
    system as the first run left it; unless the file cannot be read any
    more, the second run ends with status 0 and prints only that the file
    is already set. *)
Theorem second_run_changes_nothing E1 E2 f prog p w w1 :
  stable_tool E1 f ->
  stable_tool E2 f ->
  (forall url, single_line (strip (f url)) = true) ->
  run E1 [prog; p] w = (0%Z, w1) ->
  let code := (run E2 [prog; p] w1).1 in
  let w2 := (run E2 [prog; p] w1).2 in
  fs w2 = fs w1
  /\ (read_denied E2 0 p = false ->
      code = 0%Z
      /\ exists url, stdout w2
           = stdout w1 ++ ["distributionUrl in " +:+ p +:+ " is already set to "
                           +:+ url]).
Proof.
  intros (Hmx1 & Hf1 & Hidem) (Hmx2 & Hf2 & _) Hline Hrun1 code w2.
  subst code w2. rewrite run_single in *.
  assert (exists bytes i line,
             fs w1 !! p = Some bytes
             /\ (p ∉ garbled w1)
             /\ target_line (text_lines bytes) = Some (i, line)
             /\ strip (f (url_of line)) = url_of line) as Hfix.
  { pose proof (process_file_outcome E1 0 p w) as Hout.
    destruct (process_file E1 0 p w) as [r wa]. simpl in *.
    injection Hrun1 as Hcode ->.
    destruct Hout; simpl in Hcode; try done; open_facts.
    - congruence.
    - exists bytes, i, line. rewrite Hf1 in *. simplify_eq. done.
    - rewrite Hf1 in *. simplify_eq.
      match goal with H : target_line _ = Some _ |- _ =>
        pose proof H as Hfind; apply target_line_Some in H as (Hi & _ & _) end.
      eexists _, i, _. simpl. rewrite lookup_insert_eq. split; [done|].
      split; [apply not_elem_of_difference; right; by apply elem_of_singleton|].
      rewrite (text_lines_written _ _ _ _ _ Hi) by done.
      split; [by eapply target_line_insert|].
      rewrite url_of_patched. apply Hidem. }
  destruct Hfix as (bytes & i & line & Hbytes & Hgood & Hfind & Hsame).
  pose proof (process_file_outcome E2 0 p w1) as Hout.
  unfold file_fate in Hout. rewrite Hmx2, Hbytes in Hout.
  rewrite (bool_decide_eq_false_2 _ Hgood) in Hout.
  destruct (process_file E2 0 p w1) as [r wb]. simpl in *.
  destruct (read_denied E2 0 p) eqn:Hden.
  - inversion Hout; subst. split; [done|]. done.
  - rewrite Hfind, Hf2, Hsame, String.eqb_refl in Hout.
    inversion Hout; subst. split; [done|]. intros _. split; [done|].
    by eexists.
Qed.

Lemma second_run_changes_nothing_witness :
  let w1 := (run fixed_env ["patch"; props] scenario_a).2 in
  let code := (run fixed_env ["patch"; props] w1).1 in
  let w2 := (run fixed_env ["patch"; props] w1).2 in
  fs w2 = fs w1
  /\ (read_denied fixed_env 0 props = false ->
      code = 0%Z
      /\ exists url, stdout w2
           = stdout w1 ++ ["distributionUrl in " +:+ props
                           +:+ " is already set to " +:+ url]).
Proof.
  intros w1.
  apply (second_run_changes_nothing fixed_env fixed_env fixed_mirror "patch"
           props scenario_a w1).
  - split; [intros k; reflexivity|].
    split; [intros k url; reflexivity|intros url; reflexivity].
  - split; [intros k; reflexivity|].
    split; [intros k url; reflexivity|intros url; reflexivity].
  - intros url. reflexivity.
  - reflexivity.
Defined.

(** C7 as stated fails for a tool whose answer is two lines long.  The
    tool [two_lines] is present, is a function of the URL, and maps each
    of its trimmed answers to itself; yet the first run writes a line
    that is read back as two lines, the second run finds another URL on
    the first of them, and rewrites the file again. *)
Lemma two_line_answer_breaks_idempotence :
  stable_tool two_lines_env two_lines
  /\ (forall url, two_lines (two_lines url) = two_lines url)
  /\ exists w1 w2,
       run two_lines_env ["patch"; props] old_file = (0%Z, w1)
       /\ run two_lines_env ["patch"; props] w1 = (0%Z, w2)
       /\ fs w1 !! props = Some ("distributionUrl=a" +:+ nl +:+ "b" +:+ nl)
       /\ fs w2 !! props = Some ("distributionUrl=c" +:+ nl +:+ "b" +:+ nl)
       /\ fs w2 !! props <> fs w1 !! props.
Proof.
  assert (forall url, two_lines (two_lines url) = two_lines url) as Hidem.
  { intros url. unfold two_lines at 2 3.
    destruct (String.eqb_spec (strip url) "old") as [_|Hold]; [reflexivity|].
    destruct (String.eqb_spec (strip url) "a") as [_|Ha]; [reflexivity|].
    unfold two_lines. rewrite strip_idemp.
    apply String.eqb_neq in Hold, Ha. by rewrite Hold, Ha. }
  assert (forall url, strip (two_lines url) = two_lines url) as Hstrip.
  { intros url. unfold two_lines.
    destruct (String.eqb (strip url) "old"); [reflexivity|].
    destruct (String.eqb (strip url) "a"); [reflexivity|].
    apply strip_idemp. }
  split; [|split; [done|]].
  - split; [intros k; reflexivity|].
    split; [intros k url; reflexivity|].
    intros url. by rewrite !Hstrip, Hidem.
  - eexists _, _. split; [vm_compute; reflexivity|].
    split; [vm_compute; reflexivity|].
    split; [reflexivity|]. split; [reflexivity|].
    vm_compute. discriminate.
Qed.
End Claims.

(** ** The scenarios of the specification, run on the model *)

Module Scenarios.
Import PyStr TextIO Examples.

(** Scenario A: the URL is rewritten, the two lines are printed, the
    status is 0. *)
Example scenario_a_patched :
  exists w',
    run (posix_env mirror WriteOk) ["patch"; props] scenario_a = (0%Z, w')
    /\ fs w' !! props
       = Some ("distributionBase=GRADLE_USER_HOME" +:+ nl
               +:+ "distributionUrl=https://mirror.example.com/old.zip" +:+ nl
               +:+ "zipStoreBase=GRADLE_USER_HOME" +:+ nl)
    /\ stdout w'
       = ["Patched distributionUrl in '" +:+ props
          +:+ "' to 'https://mirror.example.com/old.zip'";
          "Do not commit this change"]
    /\ trace w'
       = [EvWhich "mx"; EvRead props;
          EvExec ["mx"; "urlrewrite"; "https://example.com/old.zip"];
          EvWrite props].
Proof. eexists. split; [vm_compute; reflexivity|]. repeat split. Qed.

(** Scenario D: the first file is patched and stays patched, the second
    cannot be read, the third path is never looked at. *)
Example scenario_d_first_kept :
  exists w',
    run (posix_env mirror WriteOk) ["patch"; props; other; props] scenario_a
    = (1%Z, w')
    /\ fs w' !! props
       = Some ("distributionBase=GRADLE_USER_HOME" +:+ nl
               +:+ "distributionUrl=https://mirror.example.com/old.zip" +:+ nl
               +:+ "zipStoreBase=GRADLE_USER_HOME" +:+ nl)
    /\ last (stdout w')
       = Some ("Error reading file: " +:+ other
               +:+ ", not rewriting distributionUrl")
    /\ trace w'
       = [EvWhich "mx"; EvRead props;
          EvExec ["mx"; "urlrewrite"; "https://example.com/old.zip"];
          EvWrite props; EvWhich "mx"; EvRead other].
Proof. eexists. split; [vm_compute; reflexivity|]. repeat split. Qed.

(** Only the first of two [distributionUrl] lines is looked at, and a
    value with blanks around it is trimmed before the tool sees it. *)
Example first_occurrence_only :
  let w := one_file props
             ("  distributionUrl= https://example.com/old.zip  " +:+ nl
              +:+ "distributionUrl=https://example.com/old.zip" +:+ nl) in
  exists w',
    run (posix_env mirror WriteOk) ["patch"; props] w = (0%Z, w')
    /\ fs w' !! props
       = Some ("distributionUrl=https://mirror.example.com/old.zip" +:+ nl
               +:+ "distributionUrl=https://example.com/old.zip" +:+ nl).
Proof. eexists. split; [vm_compute; reflexivity|]. reflexivity. Qed.
(** A file whose bytes do not decode: the exception of line 20 passes the
    handler of line 21, so nothing is printed and the status is 1. *)
Example undecodable_file_ends_silently :
  exists w',
    run (posix_env mirror WriteOk) ["patch"; props] Observations.garbled_file
    = (1%Z, w')
    /\ stdout w' = []
    /\ fs w' = fs Observations.garbled_file
    /\ trace w' = [EvWhich "mx"; EvRead props].
Proof. eexists. split; [vm_compute; reflexivity|]. repeat split. Qed.
End Scenarios.

(** ** Further properties of the script *)

Module Extras.
Import PyStr TextIO StrFacts TextFacts LineFacts ScriptFacts Examples
  Observations Claims.

(** X1.  The test of line 29 accepts exactly the lines made of some
    whitespace (possibly none), then the literal [distributionUrl=], then
    anything: indentation is allowed, a blank between the key and [=] is
    not, and neither is any other character in front of the key. *)
Theorem target_iff_blanks_then_prefix line :
  is_target line = true <->
  exists ws rest, line = ws +:+ "distributionUrl=" +:+ rest
                  /\ all_space ws = true.
Proof.
  split; [apply is_target_split|].
  intros (ws & rest & -> & Hws). unfold is_target.
  rewrite strip_app_space_l by done. rewrite strip_prefix_app.
  apply startswith_app. eauto.
Qed.

(** X2.  On a line made of whitespace, the prefix and a rest, the split of
    line 31 cuts at the [=] of the prefix: the value is the whole rest, so
    [=] signs inside the URL stay in it, and the URL handed on is the rest
    without the whitespace around it. *)
Theorem value_is_rest_after_first_equals ws rest :
  all_space ws = true ->
  split1 EQUALS (ws +:+ "distributionUrl=" +:+ rest)
  = [ws +:+ "distributionUrl"; rest]
  /\ url_of (ws +:+ "distributionUrl=" +:+ rest) = strip rest
  /\ strip (strip rest) = strip rest
  /\ headed (strip rest).
Proof.
  intros Hws. destruct (split_target ws rest Hws) as [Hsplit Hafter].
  split; [done|]. split; [unfold url_of; by rewrite Hafter|].
  split; [apply strip_idemp|apply strip_headed].
Qed.

Lemma value_is_rest_after_first_equals_witness :
  split1 EQUALS ("  " +:+ "distributionUrl="
                 +:+ (" https://example.com/get?file=gradle.zip&v=8 " +:+ nl))
  = ["  " +:+ "distributionUrl";
     " https://example.com/get?file=gradle.zip&v=8 " +:+ nl]
  /\ url_of ("  " +:+ "distributionUrl="
             +:+ (" https://example.com/get?file=gradle.zip&v=8 " +:+ nl))
     = strip (" https://example.com/get?file=gradle.zip&v=8 " +:+ nl)
  /\ strip (strip (" https://example.com/get?file=gradle.zip&v=8 " +:+ nl))
     = strip (" https://example.com/get?file=gradle.zip&v=8 " +:+ nl)
  /\ headed (strip (" https://example.com/get?file=gradle.zip&v=8 " +:+ nl)).
Proof.
  apply (value_is_rest_after_first_equals "  "
           (" https://example.com/get?file=gradle.zip&v=8 " +:+ nl)).
  reflexivity.
Defined.

(** X3.  The line written by line 35 is read by lines 29 and 31 as a
    target line whose URL is the one that was written: for every answer of
    the tool, formatting its trimmed text and extracting the URL again
    gives the trimmed text back. *)
Theorem written_line_reads_back out :
  is_target ("distributionUrl=" +:+ strip out +:+ nl) = true
  /\ split1 EQUALS ("distributionUrl=" +:+ strip out +:+ nl) !! 1
     = Some (strip out +:+ nl)
  /\ url_of ("distributionUrl=" +:+ strip out +:+ nl) = strip out.
Proof.
  split; [apply (is_target_patched (strip out))|].
  split; [|apply url_of_patched].
  destruct (split_target EmptyString (strip out +:+ nl) eq_refl) as [Hs _].
  rewrite app_empty_l in Hs. by rewrite Hs.
Qed.

(** X4.  An unreadable file (lines 18 to 23): when the loop gets to a path,
    the tool is found, and the file is missing or cannot be read, the run
    ends with status 1 after printing the read error; the tool is not
    called, nothing is written, and the file system is as it was. *)
Theorem unreadable_file_ends_run E prog paths w0 k p w :
  reaches E 0 paths w0 k p w ->
  which E k (mx_exec E) = true ->
  fs w !! p = None \/ read_denied E k p = true ->
  exists w',
    run E (prog :: paths) w0 = (1%Z, w')
    /\ fs w' = fs w
    /\ stdout w' = stdout w
         ++ ["Error reading file: " +:+ p +:+ ", not rewriting distributionUrl"]
    /\ trace w' = trace w ++ [EvWhich (mx_exec E); EvRead p].
Proof.
  intros Hr Hmx Hbad.
  pose proof (process_file_outcome E k p w) as Hout.
  assert (file_fate E k p w = ReadFailure) as Hfate.
  { unfold file_fate. rewrite Hmx. destruct Hbad as [-> | Hden]; [done|].
    rewrite Hden. by destruct (fs w !! p). }
  rewrite Hfate in Hout.
  destruct (process_file E k p w) as [r w'] eqn:Hp. simpl in Hout.
  inversion Hout; subst. eexists. split; [by eapply run_stops|done].
Qed.

Lemma unreadable_file_ends_run_witness :
  exists w',
    run (posix_env mirror WriteOk) ["patch"; other] scenario_a = (1%Z, w')
    /\ fs w' = fs scenario_a
    /\ stdout w' = stdout scenario_a
         ++ ["Error reading file: " +:+ other +:+ ", not rewriting distributionUrl"]
    /\ trace w' = trace scenario_a
         ++ [EvWhich (mx_exec (posix_env mirror WriteOk)); EvRead other].
Proof.
  apply (unreadable_file_ends_run (posix_env mirror WriteOk) "patch" [other]
           scenario_a 0 other scenario_a).
  - apply reaches_head.
  - reflexivity.
  - left. reflexivity.
Defined.

(** X5.  A failing tool (lines 32, 33 and 39 to 41): when the file is read,
    it has a target line, and the tool exits with a non-zero status for the
    URL of that line, the run ends with status 1 after printing the command
    and the error; nothing is written and the file system is as it was. *)
Theorem failing_tool_ends_run E prog paths w0 k p w bytes i line e :
  reaches E 0 paths w0 k p w ->
  reads E k p w bytes ->
  rewrites E k bytes i line (CalledProcessError e) ->
  exists w',
    run E (prog :: paths) w0 = (1%Z, w')
    /\ fs w' = fs w
    /\ stdout w' = stdout w
         ++ ["Command `" +:+ mx_exec E +:+ " urlrewrite " +:+ url_of line
             +:+ "` failed: " +:+ e]
    /\ trace w' = trace w
         ++ [EvWhich (mx_exec E); EvRead p;
             EvExec [mx_exec E; "urlrewrite"; url_of line]].
Proof.
  intros Hr Hreads Hrw.
  outcome E k p w Hp.
  eexists. split; [by eapply run_stops|done].
Qed.

Lemma failing_tool_ends_run_witness :
  exists w',
    run broken_tool_env ["patch"; props] scenario_a = (1%Z, w')
    /\ fs w' = fs scenario_a
    /\ stdout w' = stdout scenario_a
         ++ ["Command `" +:+ mx_exec broken_tool_env +:+ " urlrewrite "
             +:+ url_of ("distributionUrl=https://example.com/old.zip" +:+ nl)
             +:+ "` failed: " +:+ "Command returned non-zero exit status 1."]
    /\ trace w' = trace scenario_a
         ++ [EvWhich (mx_exec broken_tool_env); EvRead props;
             EvExec [mx_exec broken_tool_env; "urlrewrite";
                     url_of ("distributionUrl=https://example.com/old.zip" +:+ nl)]].
Proof.
  apply (failing_tool_ends_run broken_tool_env "patch" [props] scenario_a 0
           props scenario_a scenario_a_bytes 1).
  - apply reaches_head.
  - reads_here.
  - split; reflexivity.
Defined.

(** X6.  A failing write (lines 44 to 52): when the tool gave a new URL and
    writing the file back fails, the run ends with status 1; the write
    error is the only line printed for the file, so the confirmation of
    lines 48 and 49 does not appear; and when the failure is in opening
    the file, the file system is as it was. *)
Theorem failing_write_ends_run E prog paths w0 k p w bytes i line out :
  reaches E 0 paths w0 k p w ->
  reads E k p w bytes ->
  rewrites E k bytes i line (ToolOutput out) ->
  strip out <> url_of line ->
  write_fault_at E k p <> WriteOk ->
  exists w',
    run E (prog :: paths) w0 = (1%Z, w')
    /\ stdout w' = stdout w
         ++ ["Error writing file: " +:+ p
             +:+ ", distributionUrl not updated according to mx urlrewrites"]
    /\ trace w' = trace w
         ++ [EvWhich (mx_exec E); EvRead p;
             EvExec [mx_exec E; "urlrewrite"; url_of line]; EvWrite p]
    /\ (forall q, q <> p -> fs w' !! q = fs w !! q)
    /\ match write_fault_at E k p with
       | OpenFails => fs w' = fs w
       | _ => True
       end.
Proof.
  intros Hr Hreads Hrw Hne Hwf.
  destruct (write_fault_at E k p) as [| |n] eqn:Hfault; [done| |].
  - outcome E k p w Hp.
    eexists. split; [by eapply run_stops|done].
  - outcome E k p w Hp.
    eexists. split; [by eapply run_stops|].
    split; [done|]. split; [done|]. split; [|done].
    intros q Hq. simpl. by rewrite lookup_insert_ne.
Qed.

Lemma failing_write_ends_run_witness :
  exists w',
    run read_only_env ["patch"; props] scenario_a = (1%Z, w')
    /\ stdout w' = stdout scenario_a
         ++ ["Error writing file: " +:+ props
             +:+ ", distributionUrl not updated according to mx urlrewrites"]
    /\ trace w' = trace scenario_a
         ++ [EvWhich (mx_exec read_only_env); EvRead props;
             EvExec [mx_exec read_only_env; "urlrewrite";
                     url_of ("distributionUrl=https://example.com/old.zip" +:+ nl)];
             EvWrite props]
    /\ (forall q, q <> props -> fs w' !! q = fs scenario_a !! q)
    /\ match write_fault_at read_only_env 0 props with
       | OpenFails => fs w' = fs scenario_a
       | _ => True
       end.
Proof.
  apply (failing_write_ends_run read_only_env "patch" [props] scenario_a 0
           props scenario_a scenario_a_bytes 1 scenario_a_line
           ("https://mirror.example.com/old.zip" +:+ nl)).
  - apply reaches_head.
  - reads_here.
  - split; reflexivity.
  - vm_compute. discriminate.
  - discriminate.
Defined.

(** X7.  A successful patch (lines 44 to 49): when the tool gave a new URL
    and the write succeeds, the iteration goes on to the next path, the
    file holds the complete new content, and exactly two lines are printed:
    the confirmation with the path and the new URL, and the warning not to
    commit.  A run on that file alone ends with status 0. *)
Theorem patch_reports_and_continues E prog p w bytes i line out :
  reads E 0 p w bytes ->
  rewrites E 0 bytes i line (ToolOutput out) ->
  strip out <> url_of line ->
  write_fault_at E 0 p = WriteOk ->
  exists w',
    process_file E 0 p w = (Next (), w')
    /\ run E [prog; p] w = (0%Z, w')
    /\ fs w' !! p
       = Some (written E (<[i := "distributionUrl=" +:+ strip out +:+ nl]>
                            (text_lines bytes)))
    /\ stdout w' = stdout w
         ++ ["Patched distributionUrl in '" +:+ p +:+ "' to '" +:+ strip out
             +:+ "'";
             "Do not commit this change"].
Proof.
  intros Hreads Hrw Hne Hwf.
  outcome E 0 p w Hp.
  eexists. split; [done|]. split; [by rewrite run_single, Hp|].
  split; [|done]. simpl. by rewrite lookup_insert_eq.
Qed.

Lemma patch_reports_and_continues_witness :
  let E := posix_env mirror WriteOk in
  let out := "https://mirror.example.com/old.zip" +:+ nl in
  exists w',
    process_file E 0 props scenario_a = (Next (), w')
    /\ run E ["patch"; props] scenario_a = (0%Z, w')
    /\ fs w' !! props
       = Some (written E
                 (<[1 := "distributionUrl=" +:+ strip out +:+ nl]>
                    (text_lines ("distributionBase=GRADLE_USER_HOME" +:+ nl
                       +:+ "distributionUrl=https://example.com/old.zip" +:+ nl
                       +:+ "zipStoreBase=GRADLE_USER_HOME" +:+ nl))))
    /\ stdout w' = stdout scenario_a
         ++ ["Patched distributionUrl in '" +:+ props +:+ "' to '"
             +:+ strip out +:+ "'";
             "Do not commit this change"].
Proof.
  apply (patch_reports_and_continues (posix_env mirror WriteOk) "patch" props
           scenario_a scenario_a_bytes 1 scenario_a_line
           ("https://mirror.example.com/old.zip" +:+ nl)).
  - reads_here.
  - split; reflexivity.
  - vm_compute. discriminate.
  - reflexivity.
Defined.

(** X8.  The script writes a file only after the tool gave a URL other
    than the one in the file (the guard of lines 34 to 36 and 44): in
    every iteration either no write is issued and the file system is as it
    was, or one write is issued, on the path of the iteration, and then
    the file was read, held a target line, and the trimmed answer of the
    tool differs from the URL of that line. *)
Theorem writes_only_for_new_url E k p w :
  let w' := (process_file E k p w).2 in
  exists tr,
    trace w' = trace w ++ tr
    /\ ((writes_of tr = [] /\ fs w' = fs w)
        \/ (writes_of tr = [p]
            /\ exists bytes i line out,
                 reads E k p w bytes
                 /\ rewrites E k bytes i line (ToolOutput out)
                 /\ strip out <> url_of line)).
Proof.
  intros w'. subst w'.
  pose proof (process_file_outcome E k p w) as Hout.
  destruct (process_file E k p w) as [r w']. simpl in *.
  destruct Hout; eexists; (split; [done|]);
    first [by left | right; split; [done|]; eauto 10].
Qed.

(** X9.  When the file is read, the tool is called once if the file has a
    target line and not at all if it has none (lines 29 to 33); the
    command line is the executable, [urlrewrite] and the URL of the first
    target line, and that URL carries no whitespace around it. *)
Theorem tool_called_for_first_target E k p w bytes :
  reads E k p w bytes ->
  let w' := (process_file E k p w).2 in
  exists tr,
    trace w' = trace w ++ tr
    /\ execs_of tr
       = match target_line (text_lines bytes) with
         | Some (_, line) => [[mx_exec E; "urlrewrite"; url_of line]]
         | None => []
         end
    /\ Forall (fun argv => exists url, argv = [mx_exec E; "urlrewrite"; url]
                                       /\ strip url = url)
              (execs_of tr).
Proof.
  intros Hreads w'. subst w'.
  pose proof (process_file_outcome E k p w) as Hout.
  destruct (process_file E k p w) as [r w']. simpl in *.
  destruct Hout; open_facts;
    try congruence;
    try match goal with H : _ \/ _ |- _ => destruct H; congruence end;
    repeat match goal with
      | H1 : ?x = ?a, H2 : ?x = ?b |- _ =>
          assert (a = b) by congruence; clear H2; simplify_eq
      end;
    eexists; (split; [done|]);
    match goal with H : target_line _ = _ |- _ => rewrite H end;
    (split; [done|]); simpl; repeat constructor;
    eexists; (split; [done|]); apply strip_idemp.
Qed.

Lemma tool_called_for_first_target_witness :
  let E := posix_env mirror WriteOk in
  let w := one_file props (query_line +:+ scenario_a_line) in
  let w' := (process_file E 0 props w).2 in
  exists tr,
    trace w' = trace w ++ tr
    /\ execs_of tr
       = match target_line (text_lines (query_line +:+ scenario_a_line)) with
         | Some (_, line) => [[mx_exec E; "urlrewrite"; url_of line]]
         | None => []
         end
    /\ Forall (fun argv => exists url, argv = [mx_exec E; "urlrewrite"; url]
                                       /\ strip url = url)
              (execs_of tr).
Proof.
  intros E w.
  apply (tool_called_for_first_target E 0 props w
           (query_line +:+ scenario_a_line)).
  reads_here.
Defined.

(** X10.  A run changes and opens only files named on the command line
    (line 12): a path that is not among the arguments holds at the end what
    it held at the start, and no operation of the run is on it. *)
Theorem unnamed_files_untouched E prog paths w q :
  q ∉ paths ->
  let w' := (run E (prog :: paths) w).2 in
  fs w' !! q = fs w !! q
  /\ exists tr, trace w' = trace w ++ tr
                /\ Forall (fun e => event_path e <> Some q) tr.
Proof.
  intros Hq w'. subst w'. unfold run, main.
  destruct paths as [|p rest].
  - simpl. split; [done|]. exists []. by rewrite app_nil_r.
  - change (List.length (prog :: p :: rest) <? 2) with false. cbv iota.
    change (drop 1 (prog :: p :: rest)) with (p :: rest).
    destruct (for_each_frame E 0 (p :: rest) w q Hq) as (Hfs & tr & Htr & Hno).
    destruct (for_each E 0 (p :: rest) w) as [r w']. simpl in *.
    split; [done|]. by exists tr.
Qed.

Lemma unnamed_files_untouched_witness :
  let E := posix_env mirror WriteOk in
  let w' := (run E ["patch"; props] scenario_a).2 in
  fs w' !! other = fs scenario_a !! other
  /\ exists tr, trace w' = trace scenario_a ++ tr
                /\ Forall (fun e => event_path e <> Some other) tr.
Proof.
  intros E.
  apply (unnamed_files_untouched E "patch" [props] scenario_a other).
  intros Hin. apply list_elem_of_In in Hin.
  destruct Hin as [Heq|[]]. discriminate Heq.
Defined.

Lemma iteration_opens E k p w :
  exists tr,
    trace (process_file E k p w).2 = trace w ++ tr
    /\ (reads_of tr = [] \/ reads_of tr = [p])
    /\ writes_of tr `sublist_of` reads_of tr
    /\ List.length (execs_of tr) <= List.length (reads_of tr)
    /\ ((process_file E k p w).1 = Next () -> reads_of tr = [p]).
Proof.
  pose proof (process_file_outcome E k p w) as Hout.
  destruct (process_file E k p w) as [r w']. simpl in *.
  destruct Hout; eexists; (split; [done|]); simpl;
    (split; [auto|]); (split; [by repeat constructor|]);
    (split; [simpl; lia|]); done.
Qed.

Lemma loop_reads E k paths w :
  exists tr,
    trace (for_each E k paths w).2 = trace w ++ tr
    /\ reads_of tr `prefix_of` paths
    /\ writes_of tr `sublist_of` reads_of tr
    /\ List.length (execs_of tr) <= List.length (reads_of tr)
    /\ ((for_each E k paths w).1 = Next () -> reads_of tr = paths).
Proof.
  revert w k. induction paths as [|p rest IH]; intros w k.
  { simpl. exists []. rewrite app_nil_r. by repeat split. }
  rewrite for_each_cons.
  destruct (iteration_opens E k p w) as (seg & Hseg & Hreads & Hwr & Hex & Hnext).
  destruct (process_file E k p w) as [[[]|c] w1]; simpl in *.
  - destruct (IH w1 (S k)) as (tr & Htr & Hpre & Hsub & Hcnt & Hall).
    pose proof (Hnext eq_refl) as Hp.
    exists (seg ++ tr). unfold reads_of, writes_of, execs_of in *.
    rewrite !omap_app, !length_app.
    rewrite Htr, Hseg, (assoc_L (++)). split; [done|].
    rewrite Hp in *. simpl.
    split; [by apply prefix_cons|].
    split; [by apply (sublist_app _ [p])|].
    split; [simpl in *; lia|].
    intros Hr. by rewrite (Hall Hr).
  - exists seg. split; [done|]. split; [|done].
    destruct Hreads as [-> | ->]; [apply prefix_nil|].
    by apply prefix_cons, prefix_nil.
Qed.

(** X11.  The paths are read in the order of the arguments, each at most
    once and none skipped (line 12 and lines 18 to 20): the files read
    during a run are a prefix of the paths given, and all of them when the
    script runs off its end; a file is written only after it was read,
    and the tool is called at most once per file read. *)
Theorem paths_read_in_order E argv w :
  let r := (main E argv w).1 in
  let w' := (main E argv w).2 in
  exists tr,
    trace w' = trace w ++ tr
    /\ reads_of tr `prefix_of` drop 1 argv
    /\ writes_of tr `sublist_of` reads_of tr
    /\ List.length (execs_of tr) <= List.length (reads_of tr)
    /\ (r = Next () -> reads_of tr = drop 1 argv).
Proof.
  intros r w'. subst r w'. unfold main.
  destruct (Nat.ltb_spec (List.length argv) 2) as [Hlen|Hlen].
  - simpl. exists []. rewrite app_nil_r. split; [done|].
    split; [apply prefix_nil|]. by repeat split.
  - apply loop_reads.
Qed.

(** X12.  What a successful patch writes is read back by the next run as
    the lines that were read with the target line replaced, when the new
    URL holds no line break (lines 20, 35 and 47): the file has as many
    lines as before, its first target line is the new line at the same
    index, and the URL of that line is the new URL. *)
Theorem patched_file_reads_back E k p w bytes i line out :
  reads E k p w bytes ->
  rewrites E k bytes i line (ToolOutput out) ->
  strip out <> url_of line ->
  write_fault_at E k p = WriteOk ->
  single_line (strip out) = true ->
  exists w' data,
    process_file E k p w = (Next (), w')
    /\ fs w' !! p = Some data
    /\ text_lines data
       = <[i := "distributionUrl=" +:+ strip out +:+ nl]> (text_lines bytes)
    /\ List.length (text_lines data) = List.length (text_lines bytes)
    /\ target_line (text_lines data)
       = Some (i, "distributionUrl=" +:+ strip out +:+ nl)
    /\ url_of ("distributionUrl=" +:+ strip out +:+ nl) = strip out.
Proof.
  intros Hreads Hrw Hne Hwf Hline.
  outcome E k p w Hp.
  match goal with H : target_line _ = Some _ |- _ =>
    pose proof H as Hfind; apply target_line_Some in H as (Hi & _ & _) end.
  pose proof (text_lines_written E _ _ _ _ Hi Hline) as Hback.
  unfold patched_line in *.
  eexists _, _. split; [done|]. split.
  { simpl. by rewrite lookup_insert_eq. }
  rewrite Hback.
  split; [done|]. split; [by rewrite length_insert|].
  split; [by eapply (target_line_insert _ _ _ _ Hfind)|apply url_of_patched].
Qed.

Lemma patched_file_reads_back_witness :
  let E := posix_env mirror WriteOk in
  let out := "https://mirror.example.com/old.zip" +:+ nl in
  exists w' data,
    process_file E 0 props scenario_a = (Next (), w')
    /\ fs w' !! props = Some data
    /\ text_lines data
       = <[1 := "distributionUrl=" +:+ strip out +:+ nl]>
           (text_lines scenario_a_bytes)
    /\ List.length (text_lines data) = List.length (text_lines scenario_a_bytes)
    /\ target_line (text_lines data)
       = Some (1, "distributionUrl=" +:+ strip out +:+ nl)
    /\ url_of ("distributionUrl=" +:+ strip out +:+ nl) = strip out.
Proof.
  apply (patched_file_reads_back (posix_env mirror WriteOk) 0 props scenario_a
           scenario_a_bytes 1 scenario_a_line
           ("https://mirror.example.com/old.zip" +:+ nl)).
  - reads_here.
  - split; reflexivity.
  - vm_compute. discriminate.
  - reflexivity.
  - reflexivity.
Defined.

(** X14.  The flags of lines 25 to 27 after the scan of lines 28 to 42,
    when the scan does not exit: [found] says whether the lines hold a
    target line; [updated] implies [found]; without [found] the lines and
    [new_url] are as they were and the tool was not called; without
    [updated] the lines are as they were; with [updated] the lines differ
    from those read exactly in the first target line, which now holds the
    URL in [new_url], a URL other than the old one.  The number of lines
    never changes. *)
Theorem scan_flags_consistent E k p ls w st w' :
  scan_lines E k p 0 ls
    {| lines := ls; found := false; updated := false; new_url := None |} w
  = (Next st, w') ->
  (found st = true <-> is_Some (target_line ls))
  /\ (updated st = true -> found st = true)
  /\ (found st = false -> lines st = ls /\ new_url st = None /\ w' = w)
  /\ (updated st = false -> lines st = ls)
  /\ (updated st = true ->
      exists i line new,
        target_line ls = Some (i, line)
        /\ new_url st = Some new
        /\ new <> url_of line
        /\ lines st = <[i := "distributionUrl=" +:+ new +:+ nl]> ls)
  /\ List.length (lines st) = List.length ls.
Proof.
  rewrite scan_lines_summary. unfold scan_summary.
  destruct (target_line ls) as [[i line]|] eqn:Hfind.
  - destruct (run_tool E k (rewrite_argv E (url_of line))) as [out|e|];
      [|done..].
    destruct (String.eqb_spec (strip out) (url_of line)) as [Heq|Hne];
      intros [= <- <-]; simpl.
    + repeat split; try done; eauto.
    + split; [by split; eauto|]. split; [done|]. split; [done|].
      split; [done|]. split; [|by rewrite length_insert].
      intros _. by exists i, line, (strip out).
  - intros [= <- <-]. simpl. split.
    { split; [done|]. by intros [? ?]. }
    repeat split; done.
Qed.

Lemma scan_flags_consistent_witness :
  let E := posix_env mirror WriteOk in
  let ls := text_lines scenario_a_bytes in
  let st := {| lines := <[1 := "distributionUrl=https://mirror.example.com/old.zip"
                                +:+ nl]> ls;
               found := true; updated := true;
               new_url := Some "https://mirror.example.com/old.zip" |} in
  let w' := emit (EvExec ["mx"; "urlrewrite"; "https://example.com/old.zip"])
                 scenario_a in
  (found st = true <-> is_Some (target_line ls))
  /\ (updated st = true -> found st = true)
  /\ (found st = false -> lines st = ls /\ new_url st = None /\ w' = scenario_a)
  /\ (updated st = false -> lines st = ls)
  /\ (updated st = true ->
      exists i line new,
        target_line ls = Some (i, line)
        /\ new_url st = Some new
        /\ new <> url_of line
        /\ lines st = <[i := "distributionUrl=" +:+ new +:+ nl]> ls)
  /\ List.length (lines st) = List.length ls.
Proof.
  intros E ls st w'.
  apply (scan_flags_consistent E 0 props ls scenario_a st w').
  reflexivity.
Defined.


(** X16.  Lines 6 to 10 against line 12: with fewer than two entries in
    [sys.argv] the script prints its three usage lines, ends with status 1
    and performs no operation at all; with a path, the first thing it does
    is to look for the executable, before any file is opened. *)
Theorem usage_or_lookup_first E argv w :
  if List.length argv <? 2 then
    run E argv w
    = (1%Z,
       advance []
         ["Usage: python gradle-patch-properties.py <path_to_gradle.properties> [<path2>, ...]";
          "Uses mx urlrewrites to patches distributionUrl in given Gradle properties file.";
          "If mx is not available or no urlrewrite rule applies, does nothing."]
         w)
  else
    exists tr, trace (run E argv w).2 = trace w ++ EvWhich (mx_exec E) :: tr.
Proof.
  unfold run, main.
  destruct (Nat.ltb_spec (List.length argv) 2) as [Hlen|Hlen].
  - simpl. f_equal. apply world_eq; simpl; by rewrite <- ?(assoc_L (++)), ?app_nil_r.
  - destruct argv as [|prog [|p rest]]; simpl in Hlen; [lia..|].
    change (drop 1 (prog :: p :: rest)) with (p :: rest).
    rewrite for_each_cons.
    pose proof (process_file_outcome E 0 p w) as Hout.
    destruct (process_file E 0 p w) as [[[]|c] w1] eqn:Hp; simpl in *.
    + destruct (loop_reads E 1 rest w1) as (tr & Htr & _).
      destruct (for_each E 1 rest w1) as [r2 w2]. simpl in *.
      rewrite Htr. inversion Hout; subst; simpl;
        rewrite <- (assoc_L (++)); by eexists.
    + inversion Hout; subst; simpl; by eexists.
Qed.

Lemma readlines_shape text :
  Forall (fun l => l <> EmptyString) (readlines text)
  /\ forall i l, readlines text !! i = Some l ->
                 S i < List.length (readlines text) -> terminated l.
Proof.
  induction text as [|c t [IHne IHterm]]; simpl.
  - split; [constructor|]. intros i l Hl. done.
  - destruct (Ascii.eqb_spec c LF) as [->|Hc].
    + split; [by constructor|]. intros [|i] l Hl Hlen; simpl in *.
      * injection Hl as <-. by exists EmptyString.
      * apply (IHterm i); [done|lia].
    + destruct (readlines t) as [|l0 ls] eqn:Ht.
      * split; [by repeat constructor|]. intros [|i] l Hl Hlen; simpl in *; lia.
      * apply Forall_cons in IHne as [_ IHne].
        split; [by constructor|]. intros [|i] l Hl Hlen; simpl in *.
        -- injection Hl as <-.
           destruct (IHterm 0 l0 eq_refl) as (body & -> & Hbody); [lia|].
           exists (String c body). split; [done|]. simpl. rewrite Hbody.
           by apply Ascii.eqb_neq in Hc as ->.
        -- apply (IHterm (S i)); [done|lia].
Qed.

(** X17.  The lines of line 20 partition the text that was read: joined
    again (as [writelines] does on line 47) they give that text back; no
    line is empty, none holds a CR, and every line but the last ends in a
    line feed and holds no other one. *)
Theorem lines_partition_text bytes :
  join (text_lines bytes) = universal_newlines bytes
  /\ Forall (fun l => l <> EmptyString /\ contains CR l = false)
            (text_lines bytes)
  /\ forall i l, text_lines bytes !! i = Some l ->
                 S i < List.length (text_lines bytes) ->
                 exists body, l = body +:+ nl /\ contains LF body = false.
Proof.
  unfold text_lines. split; [apply join_readlines|].
  destruct (readlines_shape (universal_newlines bytes)) as [Hne Hterm].
  split; [|exact Hterm].
  apply Forall_and. split; [done|]. apply text_lines_no_cr.
Qed.

(** X18.  Reading and writing are inverse on files in the convention of
    the platform (lines 19, 20, 46 and 47): for a text without CR, the
    bytes that writing it puts on disk are read back as that text, and
    writing the lines read from those bytes gives the same bytes again,
    with LF line ends on POSIX and CR LF line ends where [os.name] is
    [nt]. *)
Theorem native_file_round_trip E text :
  contains CR text = false ->
  let bytes := translate_newlines (os_linesep E) text in
  universal_newlines bytes = text
  /\ join (text_lines bytes) = text
  /\ written E (text_lines bytes) = bytes.
Proof.
  intros Hcr bytes.
  assert (universal_newlines bytes = text) as Hback.
  { apply universal_translate; [apply os_linesep_cases|done]. }
  split; [done|]. unfold written, text_lines.
  rewrite join_readlines, Hback. done.
Qed.

Lemma native_file_round_trip_witness :
  let E := posix_env mirror WriteOk in
  let bytes := translate_newlines (os_linesep E) scenario_a_bytes in
  universal_newlines bytes = scenario_a_bytes
  /\ join (text_lines bytes) = scenario_a_bytes
  /\ written E (text_lines bytes) = bytes.
Proof.
  apply (native_file_round_trip (posix_env mirror WriteOk) scenario_a_bytes).
  reflexivity.
Defined.
End Extras.
